(** * Northwind_CSV: a shallow embedding of [convert.py]

    The script downloads one SQLite file and writes every table of it as a
    CSV file.  This development embeds the Python code as Rocq functions:
    the pure row conversion, the [csv] writer and reader the script calls
    (default [excel] dialect), [base64.b64encode], the download with its
    cleanup, and the driver loop.  Definitions come first, theorems after. *)

From Stdlib Require Import List NArith ZArith Lia Bool Ascii String DecimalString.
From Stdlib.Strings Require Import Byte.
From stdpp Require Import base gmap strings.
Import ListNotations.
Open Scope list_scope.

(* ===================================================================== *)
(** * Part I: definitions                                                  *)
(* ===================================================================== *)

(** ** Python data *)

(** A Python [str] is a list of characters and a [bytes] object a list of
    bytes.  Characters are the 8-bit ones of [ascii]: the csv code only
    ever compares a character with the comma, the double quote, CR and
    LF, and table names are lower-cased letter by letter. *)
Definition str := list ascii.
Definition bytes := list byte.

Coercion list_ascii_of_string : string >-> list.

Definition COMMA : ascii := ","%char.
Definition DQUOTE : ascii := "034"%char.
Definition CR : ascii := "013"%char.
Definition LF : ascii := "010"%char.

(** The exceptions that the embedded code can raise or let through. *)
Inductive exn :=
| RuntimeError | ValueError | TypeError | OperationalError
| AssertionError | IndexError | StopIteration | csv_Error
| OSError | ConnectionError | KeyboardInterrupt.

Inductive result (A : Type) :=
| Return (a : A)
| Raise (e : exn).
Arguments Return {A} a.
Arguments Raise {A} e.

Definition bind {A B} (m : result A) (k : A -> result B) : result B :=
  match m with
  | Return a => k a
  | Raise e => Raise e
  end.

Declare Scope py_scope.
Delimit Scope py_scope with py.
Notation "'let*' x ':=' m 'in' k" := (bind m (fun x => k))
  (at level 10, x name, m at level 100, k at level 200) : py_scope.
Open Scope py_scope.

Fixpoint mapM {A B} (f : A -> result B) (l : list A) : result (list B) :=
  match l with
  | [] => Return []
  | a :: l' =>
      let* b := f a in
      let* bs := mapM f l' in
      Return (b :: bs)
  end.

(** What the [sqlite3] module hands out for a column value.  A float is
    carried by the text that [str()] prints for it. *)
Inductive value :=
| VNone
| VInt (n : Z)
| VFloat (repr : str)
| VStr (s : str)
| VBytes (b : bytes).

Definition is_None (v : value) : bool :=
  match v with VNone => true | _ => false end.

(** [str(b)] for a bytes object: [bytes.__repr__]. *)
Definition hexdigit (n : N) : ascii :=
  nth (N.to_nat n) (list_ascii_of_string "0123456789abcdef") "0"%char.

Definition repr_byte (quote : ascii) (b : byte) : str :=
  let c := ascii_of_byte b in
  let n := Byte.to_N b in
  if Ascii.eqb c quote || Ascii.eqb c "\"%char then ["\"%char; c]
  else if Ascii.eqb c "009"%char then ["\"%char; "t"%char]
  else if Ascii.eqb c LF then ["\"%char; "n"%char]
  else if Ascii.eqb c CR then ["\"%char; "r"%char]
  else if (n <? 32)%N || (127 <=? n)%N
       then ["\"%char; "x"%char; hexdigit (n / 16); hexdigit (n mod 16)]
  else [c].

Definition repr_bytes (b : bytes) : str :=
  let squotes := existsb (fun x => Ascii.eqb (ascii_of_byte x) "'"%char) b in
  let dquotes := existsb (fun x => Ascii.eqb (ascii_of_byte x) DQUOTE) b in
  let quote := if squotes && negb dquotes then DQUOTE else "'"%char in
  "b"%char :: quote :: flat_map (repr_byte quote) b ++ [quote].

(** [str(attr)] *)
Definition str_of (v : value) : str :=
  match v with
  | VNone => "None"%string
  | VInt n => NilZero.string_of_int (Z.to_int n)
  | VFloat r => r
  | VStr s => s
  | VBytes b => repr_bytes b
  end.

(** ** [base64.b64encode] and the standard decoding *)

Definition b64_alphabet : str :=
  "ABCDEFGHIJKLMNOPQRSTUVWXYZabcdefghijklmnopqrstuvwxyz0123456789+/"%string.
Definition BASE64_PAD : ascii := "="%char.

Definition table_b2a_base64 (n : N) : byte :=
  byte_of_ascii (nth (N.to_nat n) b64_alphabet BASE64_PAD).

(** Three bytes make four 6-bit groups; a last group of one or two bytes is
    shifted left to a multiple of six bits and padded with [=]. *)
Fixpoint b64encode (data : bytes) : bytes :=
  match data with
  | [] => []
  | [a] =>
      let n := (Byte.to_N a * 16)%N in
      [table_b2a_base64 (n / 64); table_b2a_base64 (n mod 64);
       byte_of_ascii BASE64_PAD; byte_of_ascii BASE64_PAD]
  | [a; b] =>
      let n := ((Byte.to_N a * 256 + Byte.to_N b) * 4)%N in
      [table_b2a_base64 (n / 4096); table_b2a_base64 (n / 64 mod 64);
       table_b2a_base64 (n mod 64); byte_of_ascii BASE64_PAD]
  | a :: b :: c :: rest =>
      let n := (Byte.to_N a * 65536 + Byte.to_N b * 256 + Byte.to_N c)%N in
      table_b2a_base64 (n / 262144) :: table_b2a_base64 (n / 4096 mod 64)
      :: table_b2a_base64 (n / 64 mod 64) :: table_b2a_base64 (n mod 64)
      :: b64encode rest
  end.

(** [.decode('utf-8')] on 7-bit data is the identity on code points;
    [b64encode] only emits 7-bit characters (lemma [b64encode_7bit]). *)
Definition decode_utf8 (b : bytes) : str := map ascii_of_byte b.

(** Standard (RFC 4648) base64 decoding, padding required. *)
Fixpoint index_of {A} (eqb : A -> A -> bool) (x : A) (l : list A) : option nat :=
  match l with
  | [] => None
  | y :: l' => if eqb y x then Some 0 else option_map S (index_of eqb x l')
  end.

Definition b64_value (c : ascii) : option N :=
  option_map N.of_nat (index_of Ascii.eqb c b64_alphabet).

Definition opt_bind {A B} (o : option A) (k : A -> option B) : option B :=
  match o with Some a => k a | None => None end.

Fixpoint b64decode (s : str) : option bytes :=
  match s with
  | [] => Some []
  | c0 :: c1 :: c2 :: c3 :: rest =>
      opt_bind (b64_value c0) (fun v0 =>
      opt_bind (b64_value c1) (fun v1 =>
      if Ascii.eqb c3 BASE64_PAD then
        match rest with
        | [] =>
            if Ascii.eqb c2 BASE64_PAD then
              opt_bind (Byte.of_N ((v0 * 64 + v1) / 16)) (fun a => Some [a])
            else
              opt_bind (b64_value c2) (fun v2 =>
              let n := ((v0 * 64 + v1) * 64 + v2)%N in
              opt_bind (Byte.of_N (n / 1024)) (fun a =>
              opt_bind (Byte.of_N (n / 4 mod 256)) (fun b => Some [a; b])))
        | _ => None
        end
      else
        opt_bind (b64_value c2) (fun v2 =>
        opt_bind (b64_value c3) (fun v3 =>
        let n := (((v0 * 64 + v1) * 64 + v2) * 64 + v3)%N in
        opt_bind (Byte.of_N (n / 65536)) (fun a =>
        opt_bind (Byte.of_N (n / 256 mod 256)) (fun b =>
        opt_bind (Byte.of_N (n mod 256)) (fun c =>
        opt_bind (b64decode rest) (fun tl => Some (a :: b :: c :: tl)))))))))
  | _ => None
  end.

(** ** Lists, dicts and strings as the script uses them *)

Fixpoint eqb_str (a b : str) : bool :=
  match a, b with
  | [], [] => true
  | x :: a', y :: b' => Ascii.eqb x y && eqb_str a' b'
  | _, _ => false
  end.

(** [==] on two lists of [str] *)
Fixpoint eqb_row (a b : list str) : bool :=
  match a, b with
  | [], [] => true
  | x :: a', y :: b' => eqb_str x y && eqb_row a' b'
  | _, _ => false
  end.

(** A [dict] keeps its keys in insertion order. *)
Fixpoint dict_get {V} (d : list (str * V)) (k : str) : option V :=
  match d with
  | [] => None
  | (k', v) :: d' => if eqb_str k' k then Some v else dict_get d' k
  end.


(** [l.index(x)] *)
Definition list_index (l : list str) (x : str) : result nat :=
  match index_of eqb_str x l with
  | Some i => Return i
  | None => Raise ValueError
  end.

(** [del l[i]] for an index inside the list (the script always has one:
    it comes from [index]). *)
Fixpoint del_item {A} (l : list A) (i : nat) : list A :=
  match l, i with
  | [], _ => []
  | _ :: l', O => l'
  | a :: l', S i' => a :: del_item l' i'
  end.

Fixpoint enumerate_from {A} (i : nat) (l : list A) : list (nat * A) :=
  match l with
  | [] => []
  | a :: l' => (i, a) :: enumerate_from (S i) l'
  end.

Definition enumerate {A} (l : list A) : list (nat * A) := enumerate_from 0 l.




(** ** The database as the script sees it *)

(** The result of [SELECT * FROM t]: the column names of
    [cur.description] and the rows the cursor yields. *)
Record table := {
  description : list str;
  fetchall : list (list value)
}.

(** A connection gives the tables by name, in catalog order. *)
Definition Connection := list (str * table).

Definition execute_select (conn : Connection) (tableName : str) : result table :=
  match dict_get conn tableName with
  | Some t => Return t
  | None => Raise OperationalError
  end.


(** ** Table conversion: header and rows (lines 80 to 110) *)

Section Converter.

(** The two module-level constants of the script. *)
Variable NULL_CONVERT : str.
Variable BLOBS : list (str * str).

(** [b64encode(attr).decode('utf-8')]: only a bytes-like object is
    accepted. *)
Definition b64encode_attr (attr : value) : result value :=
  match attr with
  | VBytes b => Return (VStr (decode_utf8 (b64encode b)))
  | _ => Raise TypeError
  end.

(** [str(attr) if attr is not None else NULL_CONVERT] *)
Definition stringify (attr : value) : str :=
  if negb (is_None attr) then str_of attr else NULL_CONVERT.

Definition filterRows (blobColumn : option nat) (keepBlobs : bool)
    (rows : list (list value)) : result (list (list str)) :=
  let* rows :=
    match blobColumn with
    | Some k =>
        if keepBlobs then
          mapM (fun row =>
                  mapM (fun '(i, attr) =>
                          if negb (Nat.eqb i k) then Return attr
                          else b64encode_attr attr)
                       (enumerate row))
               rows
        else
          Return (map (fun row =>
                         map snd (List.filter (fun '(i, _) => negb (Nat.eqb i k))
                                         (enumerate row)))
                      rows)
    | None => Return rows
    end in
  Return (map (fun row => map stringify row) rows).

Definition find_blobColumn (tableName : str) (header : list str)
    : result (option nat) :=
  match dict_get BLOBS tableName with
  | Some column =>
      let* i := list_index header column in
      Return (Some i)
  | None => Return None
  end.

Definition drop_blob_name (blobColumn : option nat) (keepBlobs : bool)
    (header : list str) : list str :=
  match blobColumn with
  | Some k => if negb keepBlobs then del_item header k else header
  | None => header
  end.

(** The header and the table that [convertTable] goes on to write. *)
Definition convertTable_rows (conn : Connection) (tableName : str)
    (keepBlobs : bool) : result (list str * list (list str)) :=
  let* cur := execute_select conn tableName in
  let header := description cur in
  let* blobColumn := find_blobColumn tableName header in
  let header := drop_blob_name blobColumn keepBlobs header in
  let* table := filterRows blobColumn keepBlobs (fetchall cur) in
  Return (header, table).

End Converter.

(** ** The [csv] module, [excel] dialect

    [csv.writer(f)] and [csv.reader(f)] with no dialect argument:
    delimiter [,], quotechar the double quote, [doublequote] on, no
    escapechar, [QUOTE_MINIMAL], lineterminator CR LF, not strict, and the
    reader's field size limit at its default of 131072 characters.  The
    functions follow those of CPython's [_csv] module (version 3.11 and
    later, where a NUL character is an ordinary character); the parser
    states that only an escapechar can lead to are left out. *)

Definition lineterminator : str := [CR; LF].

(** Characters for which [QUOTE_MINIMAL] quotes the field. *)
Definition special (c : ascii) : bool :=
  Ascii.eqb c COMMA || Ascii.eqb c DQUOTE || existsb (Ascii.eqb c) lineterminator.

(** The characters of one field, a quote character doubled. *)
Definition join_append_data (field : str) : str :=
  flat_map (fun c => if Ascii.eqb c DQUOTE then [DQUOTE; DQUOTE] else [c]) field.

(** Append one field to the record under construction. *)
Definition join_append (rec : str) (num_fields : nat) (field : str)
    (quoted : bool) : str :=
  let quoted := quoted || existsb special field in
  rec ++ (if (0 <? num_fields)%nat then [COMMA] else [])
      ++ (if quoted then [DQUOTE] else [])
      ++ join_append_data field
      ++ (if quoted then [DQUOTE] else []).

Fixpoint join_fields (rec : str) (num_fields : nat) (row : list str)
    : str * nat :=
  match row with
  | [] => (rec, num_fields)
  | field :: row' =>
      join_fields (join_append rec num_fields field false) (S num_fields) row'
  end.

(** [writer.writerow(row)]: the text handed to [f.write].  A record of
    one empty field is written as a pair of quotes. *)
Definition writerow (row : list str) : str :=
  let '(rec, num_fields) := join_fields [] 0 row in
  let rec :=
    if (0 <? num_fields)%nat && (length rec =? 0)%nat
    then join_append rec (num_fields - 1) [] true
    else rec in
  rec ++ lineterminator.

Definition writerows (rows : list (list str)) : str :=
  flat_map writerow rows.

Inductive ParserState :=
| START_RECORD | START_FIELD | IN_FIELD
| IN_QUOTED_FIELD | QUOTE_IN_QUOTED_FIELD | EAT_CRNL.

Record ReaderObj := {
  state : ParserState;
  fields : list str;
  field : str
}.

Definition field_limit : N := 131072.

Definition parse_reset : ReaderObj :=
  {| state := START_RECORD; fields := []; field := [] |}.

Definition set_state (self : ReaderObj) (s : ParserState) : ReaderObj :=
  {| state := s; fields := fields self; field := field self |}.

Definition parse_save_field (self : ReaderObj) : ReaderObj :=
  {| state := state self; fields := fields self ++ [field self]; field := [] |}.

Definition parse_add_char (self : ReaderObj) (c : ascii) : result ReaderObj :=
  if (field_limit <=? N.of_nat (length (field self)))%N then Raise csv_Error
  else Return {| state := state self; fields := fields self;
                 field := field self ++ [c] |}.

Definition is_newline (c : ascii) : bool := Ascii.eqb c LF || Ascii.eqb c CR.

(** One step of the reader's state machine; [None] is the end-of-line
    mark that the reader feeds itself after the last character of every
    line. *)
Definition parse_start_field (self : ReaderObj) (c : option ascii)
    : result ReaderObj :=
  match c with
  | None => Return (set_state (parse_save_field self) START_RECORD)
  | Some ch =>
      if is_newline ch then Return (set_state (parse_save_field self) EAT_CRNL)
      else if Ascii.eqb ch DQUOTE then Return (set_state self IN_QUOTED_FIELD)
      else if Ascii.eqb ch COMMA then Return (parse_save_field self)
      else
        let* self := parse_add_char self ch in
        Return (set_state self IN_FIELD)
  end.

Definition parse_process_char (self : ReaderObj) (c : option ascii)
    : result ReaderObj :=
  match state self with
  | START_RECORD =>
      match c with
      | None => Return self
      | Some ch =>
          if is_newline ch then Return (set_state self EAT_CRNL)
          else parse_start_field (set_state self START_FIELD) c
      end
  | START_FIELD => parse_start_field self c
  | IN_FIELD =>
      match c with
      | None => Return (set_state (parse_save_field self) START_RECORD)
      | Some ch =>
          if is_newline ch then
            Return (set_state (parse_save_field self) EAT_CRNL)
          else if Ascii.eqb ch COMMA then
            Return (set_state (parse_save_field self) START_FIELD)
          else parse_add_char self ch
      end
  | IN_QUOTED_FIELD =>
      match c with
      | None => Return self
      | Some ch =>
          if Ascii.eqb ch DQUOTE then Return (set_state self QUOTE_IN_QUOTED_FIELD)
          else parse_add_char self ch
      end
  | QUOTE_IN_QUOTED_FIELD =>
      match c with
      | None => Return (set_state (parse_save_field self) START_RECORD)
      | Some ch =>
          if Ascii.eqb ch DQUOTE then
            let* self := parse_add_char self ch in
            Return (set_state self IN_QUOTED_FIELD)
          else if Ascii.eqb ch COMMA then
            Return (set_state (parse_save_field self) START_FIELD)
          else if is_newline ch then
            Return (set_state (parse_save_field self) EAT_CRNL)
          else
            let* self := parse_add_char self ch in
            Return (set_state self IN_FIELD)
      end
  | EAT_CRNL =>
      match c with
      | None => Return (set_state self START_RECORD)
      | Some ch => if is_newline ch then Return self else Raise csv_Error
      end
  end.

Fixpoint parse_chars (self : ReaderObj) (line : str) : result ReaderObj :=
  match line with
  | [] => Return self
  | c :: line' =>
      let* self := parse_process_char self (Some c) in
      parse_chars self line'
  end.

Definition parse_line (self : ReaderObj) (line : str) : result ReaderObj :=
  let* self := parse_chars self line in
  parse_process_char self None.

Definition eqb_state (a b : ParserState) : bool :=
  match a, b with
  | START_RECORD, START_RECORD | START_FIELD, START_FIELD
  | IN_FIELD, IN_FIELD | IN_QUOTED_FIELD, IN_QUOTED_FIELD
  | QUOTE_IN_QUOTED_FIELD, QUOTE_IN_QUOTED_FIELD | EAT_CRNL, EAT_CRNL => true
  | _, _ => false
  end.

(** What iterating over [csv.reader(lines)] yields: the records in order,
    and then how the iteration ends, [None] for plain exhaustion and
    [Some e] for the exception [e].  Every record starts from
    [parse_reset] and takes lines until the machine is back in
    [START_RECORD]; at the end of the input a pending field is saved. *)
Fixpoint Reader_iter (self : ReaderObj) (lines : list str)
    : list (list str) * option exn :=
  match lines with
  | [] =>
      if negb (length (field self) =? 0)%nat
         || eqb_state (state self) IN_QUOTED_FIELD
      then ([fields (parse_save_field self)], None)
      else ([], None)
  | line :: lines' =>
      match parse_line self line with
      | Raise e => ([], Some e)
      | Return self' =>
          if eqb_state (state self') START_RECORD then
            let '(rows, stop) := Reader_iter parse_reset lines' in
            (fields self' :: rows, stop)
          else Reader_iter self' lines'
      end
  end.

Definition csv_reader (lines : list str) : list (list str) * option exn :=
  Reader_iter parse_reset lines.

(** Iterating over a text file opened with [newline=""]: a line ends
    after LF, after CR LF, or after a CR that no LF follows, and keeps its
    ending. *)
Fixpoint readlines (s : str) : list str :=
  match s with
  | [] => []
  | c :: s' =>
      if Ascii.eqb c LF then [c] :: readlines s'
      else if Ascii.eqb c CR then
        match s' with
        | c' :: s'' =>
            if Ascii.eqb c' LF then [c; c'] :: readlines s''
            else [c] :: readlines s'
        | [] => [[c]]
        end
      else
        match readlines s' with
        | [] => [[c]]
        | line :: lines => (c :: line) :: lines
        end
  end.

(** ** The read-back check (lines 121 to 131) *)

Fixpoint check_rows (table : list (list str)) (i : nat)
    (rows : list (list str)) (stop : option exn) : result unit :=
  match rows with
  | [] =>
      match stop with
      | Some e => Raise e
      | None => Return tt
      end
  | row :: rows' =>
      match nth_error table i with
      | None => Raise IndexError
      | Some expected =>
          if eqb_row expected row then check_rows table (S i) rows' stop
          else Raise AssertionError
      end
  end.

Definition check_readback (header : list str) (table : list (list str))
    (text : str) : result unit :=
  match csv_reader (readlines text) with
  | ([], None) => Raise StopIteration
  | ([], Some e) => Raise e
  | (header2 :: rows, stop) =>
      if eqb_row header header2 then check_rows table 0 rows stop
      else Raise AssertionError
  end.

(** ** The world: files, requests and the console

    The working directory maps a name to a file or to a directory with
    its permission bits and the files in it.  The log records, in order,
    every request, every file operation that was carried out or that
    failed, every printed line, and every call of [convertTable]. *)

Inductive node :=
| File (data : bytes)
| Dir (r w x : bool) (entries : gmap str bytes).

Inductive path :=
| Here (name : str)
| Under (dir name : str).

(** [os.path.join(d, n)] *)
Definition join (d n : str) : path := Under d n.

Definition path_str (p : path) : str :=
  match p with
  | Here n => n
  | Under d n => d ++ "/"%char :: n
  end.

Inductive output :=
| Line (s : str)
| Progress (bytesRead contentLength : Z).

Inductive event :=
| Requested (url : str)
| MadeDir (d : str)
| Opened (p : path)
| Wrote (p : path) (data : bytes)
| Unlinked (p : path)
| Printed (o : output)
| Converted (tableName csvPath : str) (keepBlobs : bool)
| Failed (attempt : event) (e : exn).

Record world := {
  cwd : gmap str node;
  log : list event
}.

(** A streamed HTTP response.  [Content_Length] is what
    [int(r.headers.get('Content-Length', 0))] meets: no header, or a
    header that [int] reads or rejects.  [iter_content] lists what the
    chunk iterator does at each step: a chunk, or an exception. *)
Record Response := {
  status_code : Z;
  Content_Length : option (result Z);
  iter_content : list (result bytes)
}.

(** What the program does not decide: the answer of the server, the
    content of the database file, and which file operation fails (with
    which exception) after which history. *)
Record Env := {
  requests_get : str -> result Response;
  fails : list event -> event -> option exn;
  sqlite_connect : bytes -> list (str * table)
}.

Definition IO (A : Type) : Type := world -> result A * world.

Definition ret {A} (a : A) : IO A := fun w => (Return a, w).
Definition raise {A} (e : exn) : IO A := fun w => (Raise e, w).
Definition lift {A} (r : result A) : IO A := fun w => (r, w).

Definition io_bind {A B} (m : IO A) (k : A -> IO B) : IO B :=
  fun w =>
    match m w with
    | (Return a, w') => k a w'
    | (Raise e, w') => (Raise e, w')
    end.

Notation "x <- m ;; k" := (io_bind m (fun x => k))
  (at level 100, m at next level, k at level 200, right associativity)
  : py_scope.
Notation "m ;; k" := (io_bind m (fun _ => k))
  (at level 100, k at level 200, right associativity) : py_scope.

(** [try: body except: handler] with the exception at hand. *)
Definition try_except {A} (body : IO A) (handler : exn -> IO A) : IO A :=
  fun w =>
    match body w with
    | (Return a, w') => (Return a, w')
    | (Raise e, w') => handler e w'
    end.

Fixpoint for_each {A} (l : list A) (body : A -> IO unit) : IO unit :=
  match l with
  | [] => ret tt
  | a :: l' => body a ;; for_each l' body
  end.

Definition record (ev : event) (w : world) : world :=
  {| cwd := cwd w; log := log w ++ [ev] |}.

Definition print (o : output) : IO unit :=
  fun w => (Return tt, record (Printed o) w).

(** A file operation: it fails if the environment says so, and otherwise
    changes the directory tree as given. *)
Definition perform (env : Env) (ev : event)
    (change : gmap str node -> result (gmap str node)) : IO unit :=
  fun w =>
    match fails env (log w) ev with
    | Some e => (Raise e, record (Failed ev e) w)
    | None =>
        match change (cwd w) with
        | Return fs => (Return tt, {| cwd := fs; log := log w ++ [ev] |})
        | Raise e => (Raise e, record (Failed ev e) w)
        end
    end.

Definition lookup_path (fs : gmap str node) (p : path) : option node :=
  match p with
  | Here n => fs !! n
  | Under d n =>
      match fs !! d with
      | Some (Dir _ _ x entries) =>
          if x then option_map File (entries !! n) else None
      | _ => None
      end
  end.

(** [os.path.exists], [os.path.isdir] and
    [os.access(d, os.W_OK | os.R_OK | os.X_OK)] *)
Definition path_exists (p : path) : IO bool :=
  fun w =>
    (Return (match lookup_path (cwd w) p with Some _ => true | None => false end), w).

Definition isdir (d : str) : IO bool :=
  fun w =>
    (Return (match cwd w !! d with Some (Dir _ _ _ _) => true | _ => false end), w).

Definition access_rwx (d : str) : IO bool :=
  fun w =>
    (Return (match cwd w !! d with
             | Some (Dir r wr x _) => r && wr && x
             | _ => false
             end), w).

Definition mkdir (env : Env) (d : str) : IO unit :=
  perform env (MadeDir d)
    (fun fs =>
       match fs !! d with
       | Some _ => Raise OSError
       | None => Return (<[d := Dir true true true ∅]> fs)
       end).

(** Store [data] at [p]; the directory of [p] has to be there. *)
Definition store (fs : gmap str node) (p : path) (data : bytes)
    : result (gmap str node) :=
  match p with
  | Here n =>
      match fs !! n with
      | Some (Dir _ _ _ _) => Raise OSError
      | _ => Return (<[n := File data]> fs)
      end
  | Under d n =>
      match fs !! d with
      | Some (Dir r wr x entries) =>
          Return (<[d := Dir r wr x (<[n := data]> entries)]> fs)
      | _ => Raise OSError
      end
  end.

Definition content (fs : gmap str node) (p : path) : option bytes :=
  match p with
  | Here n =>
      match fs !! n with
      | Some (File data) => Some data
      | _ => None
      end
  | Under d n =>
      match fs !! d with
      | Some (Dir _ _ _ entries) => entries !! n
      | _ => None
      end
  end.

(** Opening [p] for writing creates the file or empties it.  Below a
    directory this takes search permission, and write permission too
    when the file is new. *)
Definition create (fs : gmap str node) (p : path) : result (gmap str node) :=
  match p with
  | Here n => store fs p []
  | Under d n =>
      match fs !! d with
      | Some (Dir _ wr x entries) =>
          if x && (wr || match entries !! n with Some _ => true | None => false end)
          then store fs p []
          else Raise OSError
      | _ => Raise OSError
      end
  end.

(** [open(p, "wb")] and [open(p, "w", newline="")] *)
Definition open_w (env : Env) (p : path) : IO unit :=
  perform env (Opened p) (fun fs => create fs p).

(** [f.write(data)] on the file opened at [p] *)
Definition f_write (env : Env) (p : path) (data : bytes) : IO unit :=
  perform env (Wrote p data)
    (fun fs =>
       match content fs p with
       | Some old => store fs p (old ++ data)
       | None => Raise OSError
       end).

Definition unlink (env : Env) (p : path) : IO unit :=
  perform env (Unlinked p)
    (fun fs =>
       match content fs p, p with
       | None, _ => Raise OSError
       | Some _, Here n => Return (delete n fs)
       | Some _, Under d n =>
           match fs !! d with
           | Some (Dir r wr x entries) =>
               if wr && x
               then Return (<[d := Dir r wr x (delete n entries)]> fs)
               else Raise OSError
           | _ => Raise OSError
           end
       end).

(** [f.read()] of a file opened for reading *)
Definition read_file (p : path) : IO bytes :=
  fun w =>
    match content (cwd w) p with
    | Some data => (Return data, w)
    | None => (Raise OSError, w)
    end.

(** A text file holds one byte for each character. *)
Definition encode (s : str) : bytes := map byte_of_ascii s.
Definition decode (b : bytes) : str := map ascii_of_byte b.

(** ** The download (lines 11 to 77) *)

Definition DOWNLOAD_DIR : str := "download"%string.
Definition NORTHWIND_URL : str :=
  "https://raw.githubusercontent.com/jpwhite3/northwind-SQLite3/main/dist/northwind.db"%string.
Definition NORTHWIND_DB : str := "northwind.db"%string.
Definition NORTHWIND_PATH : path := join DOWNLOAD_DIR NORTHWIND_DB.

Definition get (env : Env) (url : str) : IO Response :=
  fun w => (requests_get env url, record (Requested url) w).

(** The [for chunk in r.iter_content(...)] loop. *)
Fixpoint write_chunks (env : Env) (localPath : path) (contentLength : Z)
    (bytesRead : Z) (chunks : list (result bytes)) : IO unit :=
  match chunks with
  | [] => ret tt
  | Raise e :: _ => raise e
  | Return chunk :: chunks' =>
      f_write env localPath chunk ;;
      let bytesRead := (bytesRead + Z.of_nat (length chunk))%Z in
      print (Progress bytesRead contentLength) ;;
      write_chunks env localPath contentLength bytesRead chunks'
  end.

(** The body of the [with open(localPath, "wb")] statement. *)
Definition download_body (env : Env) (localPath : path) (contentLength : Z)
    (r : Response) : IO unit :=
  print (Line ("Downloading to "%string ++ path_str localPath)) ;;
  write_chunks env localPath contentLength 0 (iter_content r) ;;
  print (Line []).

Definition warning (localPath : path) : output :=
  Line ("Wanring: could not delete partial transfer at "%string
        ++ path_str localPath).

(** The inner [try] of the handler: delete what is there, and only
    print a warning if that fails. *)
Definition cleanup (env : Env) (localPath : path) : IO unit :=
  try_except
    (there <- path_exists localPath ;;
     if there then unlink env localPath else ret tt)
    (fun _ => print (warning localPath)).

Definition download (env : Env) (remoteUrl : str) (localPath : path) : IO unit :=
  r <- get env remoteUrl ;;
  if negb (status_code r =? 200)%Z then raise RuntimeError
  else
    contentLength <- lift (match Content_Length r with
                           | Some n => n
                           | None => Return 0%Z
                           end) ;;
    try_except
      (open_w env localPath ;;
       download_body env localPath contentLength r)
      (fun e => cleanup env localPath ;; raise e).

Definition downloadNorthwind (env : Env) : IO unit :=
  (there <- path_exists (Here DOWNLOAD_DIR) ;;
   if negb there then mkdir env DOWNLOAD_DIR
   else
     d <- isdir DOWNLOAD_DIR ;;
     if negb d then raise RuntimeError
     else
       ok <- access_rwx DOWNLOAD_DIR ;;
       if negb ok then raise RuntimeError else ret tt) ;;
  there <- path_exists NORTHWIND_PATH ;;
  if negb there then download env NORTHWIND_URL NORTHWIND_PATH else ret tt.

(** ** [convertTable] and the driver (lines 79 to 152) *)

Section Exporter.

Variable NULL_CONVERT : str.
Variable BLOBS : list (str * str).
Variable env : Env.

Definition convertTable (conn : Connection) (tableName csvPath : str)
    (keepBlobs : bool) : IO unit :=
  (fun w => (Return tt, record (Converted tableName csvPath keepBlobs) w)) ;;
  data <- lift (convertTable_rows NULL_CONVERT BLOBS conn tableName keepBlobs) ;;
  let '(header, table) := data in
  open_w env (Here csvPath) ;;
  f_write env (Here csvPath) (encode (writerow header)) ;;
  for_each table (fun row => f_write env (Here csvPath) (encode (writerow row))) ;;
  text <- read_file (Here csvPath) ;;
  lift (check_readback header table (decode text)).




End Exporter.

(** The constants as the script sets them. *)
Definition NULL_CONVERT : str := [].
Definition BLOBS : list (str * str) :=
  [("Categories"%string : str, "Picture"%string : str);
   ("Employees"%string : str, "Photo"%string : str)].

(** ** Notions used in the statements about the csv reader *)

(** The reader run over the lines of a text. *)
Definition Reader_text (self : ReaderObj) (text : str) :=
  Reader_iter self (readlines text).

(** A whole line fed to the machine, and the rest of the text read. *)
Definition after_line (self : ReaderObj) (line rest : str) :=
  match parse_line self line with
  | Raise e => ([], Some e)
  | Return self' =>
      if eqb_state (state self') START_RECORD then
        let '(rows, stop) := Reader_text parse_reset rest in
        (fields self' :: rows, stop)
      else Reader_text self' rest
  end.

(** The text goes on, and not with LF. *)
Definition no_lf_ahead (s : str) : Prop :=
  match s with
  | c :: _ => Ascii.eqb c LF = false
  | [] => False
  end.

Abbreviation mk := Build_ReaderObj.

(** A field within the reader's field size limit. *)
Definition fits (fld : str) : Prop := (N.of_nat (length fld) <= field_limit)%N.

(** The text the writer produces for one field. *)
Definition field_text (f : str) : str := join_append [] 0 f false.

(** States in which the text of a field has just been read. *)
Definition field_done (st : ParserState) : Prop :=
  st = START_FIELD \/ st = IN_FIELD \/ st = QUOTE_IN_QUOTED_FIELD.

(** The text of the fields after the first one of a record. *)
Definition more_fields (row : list str) : str :=
  flat_map (fun g => COMMA :: field_text g) row.

(** ** A small database for the examples *)

Definition png : bytes := [x89; x50; x4e; x47].

Definition Categories : table := {|
  description :=
    [("CategoryID"%string : str); ("CategoryName"%string : str);
     ("Description"%string : str); ("Picture"%string : str)];
  fetchall :=
    [[VInt 1; VStr "Beverages"%string; VNone; VBytes png];
     [VInt 2;
      VStr (("Dairy, "%string : str) ++ DQUOTE :: ("soft"%string : str) ++ [DQUOTE]);
      VStr []; VBytes []];
     [VInt 3; VStr "Grains"%string;
      VStr (("two"%string : str) ++ CR :: LF :: ("lines"%string : str));
      VBytes [x00]]]
|}.

(** The same table with one more row, whose picture is NULL. *)
Definition Categories_with_null : table := {|
  description := description Categories;
  fetchall := fetchall Categories ++ [[VInt 4; VStr []; VNone; VNone]]
|}.

Definition Region : table := {|
  description := [("RegionID"%string : str); ("RegionDescription"%string : str)];
  fetchall := [[VInt 1; VStr "Eastern"%string]; [VInt 2; VNone]]
|}.

Definition Employees : table := {|
  description :=
    [("EmployeeID"%string : str); ("LastName"%string : str);
     ("Photo"%string : str)];
  fetchall := [[VInt 1; VStr "Davolio"%string; VBytes [x42; x4d; x00; x01; x02]]]
|}.

Definition sample_db : Connection :=
  [("Categories"%string : str, Categories);
   ("Employees"%string : str, Employees);
   ("sqlite_sequence"%string : str,
    {| description := [("name"%string : str); ("seq"%string : str)];
       fetchall := [] |});
   ("Region"%string : str, Region)].

(** ** The calls of [convertTable] that a log records *)

Definition conversions (l : list event) : list (str * str * bool) :=
  flat_map (fun ev =>
              match ev with
              | Converted tableName csvPath keepBlobs =>
                  [(tableName, csvPath, keepBlobs)]
              | _ => []
              end) l.

(** Every file of the working directory is still a file afterwards. *)
Definition files_kept (w w' : world) : Prop :=
  forall (p : str) (data : bytes),
    cwd w !! p = Some (File data) ->
    exists data' : bytes, cwd w' !! p = Some (File data').

(** An action that calls no [convertTable] and removes no file. *)
Definition quiet {A} (m : IO A) : Prop :=
  forall w res w',
    m w = (res, w') ->
    conversions (log w') = conversions (log w) /\ files_kept w w'.

(** ** Environments in which no file operation fails *)

Definition reliable (env : Env) : Prop :=
  forall history ev, fails env history ev = None.

(** The server is down, the disk works. *)
Definition offline : Env := {|
  requests_get := fun _ => Raise ConnectionError;
  fails := fun _ _ => None;
  sqlite_connect := fun _ => sample_db
|}.

Definition empty_world : world := {| cwd := ∅; log := [] |}.

(** A server that answers 404, and one whose stream breaks after the
    first chunk. *)
Definition not_found : Env := {|
  requests_get := fun _ =>
    Return {| status_code := 404; Content_Length := None; iter_content := [] |};
  fails := fun _ _ => None;
  sqlite_connect := fun _ => sample_db
|}.

Definition broken_stream : Env := {|
  requests_get := fun _ =>
    Return {| status_code := 200;
              Content_Length := Some (Return 4%Z);
              iter_content := [Return [x53; x51]; Raise ConnectionError] |};
  fails := fun _ _ => None;
  sqlite_connect := fun _ => sample_db
|}.

(** The working directory with an empty cache directory, and with the
    database already in it. *)
Definition fresh_world : world := {|
  cwd := {[ DOWNLOAD_DIR := Dir true true true ∅ ]};
  log := []
|}.

Definition cached_world : world := {|
  cwd := {[ DOWNLOAD_DIR := Dir true true true {[ NORTHWIND_DB := [x53; x51] ]} ]};
  log := []
|}.

(** ** Notions used in the further statements *)




(** The byte counts that the progress lines of a log report. *)
Definition progress_counts (l : list event) : list Z :=
  flat_map (fun ev =>
              match ev with
              | Printed (Progress bytesRead _) => [bytesRead]
              | _ => []
              end) l.

(** The sizes of the chunks, added up from [start]. *)
Fixpoint running_totals (start : Z) (chunks : list bytes) : list Z :=
  match chunks with
  | [] => []
  | chunk :: chunks' =>
      let total := (start + Z.of_nat (length chunk))%Z in
      total :: running_totals total chunks'
  end.




(** ** More worlds and environments for the examples *)

(** [download] is a plain file; and the cache directory, with the
    database in it, may not be written. *)
Definition blocked_world : world := {|
  cwd := {[ DOWNLOAD_DIR := File [] ]};
  log := []
|}.

Definition readonly_world : world := {|
  cwd := {[ DOWNLOAD_DIR := Dir true false true {[ NORTHWIND_DB := [x53; x51] ]} ]};
  log := []
|}.

(** A server that streams two chunks. *)
Definition two_chunks : Response := {|
  status_code := 200;
  Content_Length := Some (Return 5%Z);
  iter_content := [Return [x53; x51; x4c]; Return [x69; x74]]
|}.

Definition online : Env := {|
  requests_get := fun _ => Return two_chunks;
  fails := fun _ _ => None;
  sqlite_connect := fun _ => sample_db
|}.

(** The same server, on a machine where no file can be opened. *)
Definition locked : Env := {|
  requests_get := fun _ => Return two_chunks;
  fails := fun _ ev => match ev with Opened _ => Some OSError | _ => None end;
  sqlite_connect := fun _ => sample_db
|}.

(** A table of the registry without its picture column, and one with
    no rows. *)
Definition Categories_plain : table := {|
  description := [("CategoryID"%string : str); ("CategoryName"%string : str)];
  fetchall := [[VInt 1; VStr "Beverages"%string]]
|}.

Definition Categories_empty : table := {|
  description := description Categories;
  fetchall := []
|}.



(* ===================================================================== *)
(** * Part II: theorems                                                    *)
(* ===================================================================== *)

(** ** Base64 *)

Lemma b64_value_table (n : N) :
  (n < 64)%N -> b64_value (ascii_of_byte (table_b2a_base64 n)) = Some n.
Proof.
  intros Hn. unfold table_b2a_base64. rewrite ascii_of_byte_of_ascii.
  rewrite <- (N2Nat.id n) at 2.
  assert (Hk : (N.to_nat n < 64)%nat) by lia.
  generalize dependent (N.to_nat n). clear n Hn. intros k Hk.
  do 64 (destruct k as [|k]; [reflexivity|]). lia.
Qed.

Lemma table_b2a_base64_not_pad (n : N) :
  (n < 64)%N -> Ascii.eqb (ascii_of_byte (table_b2a_base64 n)) BASE64_PAD = false.
Proof.
  intros Hn. unfold table_b2a_base64. rewrite ascii_of_byte_of_ascii.
  assert (Hk : (N.to_nat n < 64)%nat) by lia.
  generalize dependent (N.to_nat n). clear n Hn. intros k Hk.
  do 64 (destruct k as [|k]; [reflexivity|]). lia.
Qed.

Lemma list_ind3 {A} (P : list A -> Prop) :
  P [] -> (forall a, P [a]) -> (forall a b, P [a; b]) ->
  (forall a b c l, P l -> P (a :: b :: c :: l)) ->
  forall l, P l.
Proof.
  intros H0 H1 H2 H3.
  fix IH 1. intros [|a [|b [|c l]]];
    [apply H0 | apply H1 | apply H2 | apply H3, IH].
Qed.

Ltac byte_bounds :=
  repeat match goal with
  | b : byte |- _ =>
      lazymatch goal with
      | H : (Byte.to_N b <= 255)%N |- _ => fail
      | _ => pose proof (Byte.to_N_bounded b)
      end
  end.

Ltac N_divmod := zify; Z.to_euclidean_division_equations; lia.

Ltac b64_values :=
  repeat (first [ rewrite b64_value_table by N_divmod
                | rewrite table_b2a_base64_not_pad by N_divmod ];
          cbn [opt_bind]).

Lemma b64decode_b64encode (data : bytes) :
  b64decode (decode_utf8 (b64encode data)) = Some data.
Proof.
  induction data as [|a|a b|a b c l IH] using list_ind3.
  - reflexivity.
  - byte_bounds. cbn [b64encode decode_utf8 map b64decode].
    rewrite !ascii_of_byte_of_ascii. b64_values.
    cbn [Ascii.eqb BASE64_PAD Bool.eqb].
    replace ((Byte.to_N a * 16 / 64 * 64 + Byte.to_N a * 16 mod 64) / 16)%N
      with (Byte.to_N a) by N_divmod.
    now rewrite Byte.of_to_N.
  - byte_bounds. cbn [b64encode decode_utf8 map b64decode].
    rewrite !ascii_of_byte_of_ascii. b64_values.
    cbn [Ascii.eqb BASE64_PAD Bool.eqb]. b64_values.
    set (n := ((Byte.to_N a * 256 + Byte.to_N b) * 4)%N).
    replace (((n / 4096 * 64 + n / 64 mod 64) * 64 + n mod 64) / 1024)%N
      with (Byte.to_N a) by (subst n; N_divmod).
    replace (((n / 4096 * 64 + n / 64 mod 64) * 64 + n mod 64) / 4 mod 256)%N
      with (Byte.to_N b) by (subst n; N_divmod).
    now rewrite !Byte.of_to_N.
  - byte_bounds. cbn [b64encode decode_utf8 map b64decode].
    fold (decode_utf8 (b64encode l)).
    b64_values.
    set (n := (Byte.to_N a * 65536 + Byte.to_N b * 256 + Byte.to_N c)%N).
    replace ((((n / 262144 * 64 + n / 4096 mod 64) * 64 + n / 64 mod 64) * 64
              + n mod 64))%N with n by (subst n; N_divmod).
    replace (n / 65536)%N with (Byte.to_N a) by (subst n; N_divmod).
    replace (n / 256 mod 256)%N with (Byte.to_N b) by (subst n; N_divmod).
    replace (n mod 256)%N with (Byte.to_N c) by (subst n; N_divmod).
    rewrite !Byte.of_to_N. cbn [opt_bind]. rewrite IH. reflexivity.
Qed.

Lemma table_b2a_base64_7bit (n : N) : (Byte.to_N (table_b2a_base64 n) < 128)%N.
Proof.
  unfold table_b2a_base64. generalize (N.to_nat n). clear n. intros k.
  do 64 (destruct k as [|k]; [vm_compute; reflexivity|]).
  destruct k; vm_compute; reflexivity.
Qed.

(** [b64encode] emits 7-bit characters only, which is why decoding its
    output as UTF-8 gives the same characters back. *)
Lemma b64encode_7bit (data : bytes) :
  Forall (fun b => (Byte.to_N b < 128)%N) (b64encode data).
Proof.
  induction data as [|a|a b|a b c l IH] using list_ind3;
    cbn [b64encode]; repeat constructor;
    try apply table_b2a_base64_7bit; try exact IH.
Qed.

(** ** The csv reader on what the csv writer wrote *)

(** The table [Region] with its NULL, and a row with a comma, quotes and
    a line break, as the writer prints them. *)
Example region_csv :
  writerows (description Region
             :: map (map (stringify NULL_CONVERT)) (fetchall Region))
  = ("RegionID,RegionDescription"%string : str) ++ CR :: LF
    :: ("1,Eastern"%string : str) ++ CR :: LF
    :: ("2,"%string : str) ++ [CR; LF].
Proof. reflexivity. Qed.

Example quoted_csv :
  writerow [("a,b"%string : str); [DQUOTE]; [CR; LF]; []]
  = DQUOTE :: ("a,b"%string : str)
    ++ [DQUOTE; COMMA; DQUOTE; DQUOTE; DQUOTE; DQUOTE; COMMA;
        DQUOTE; CR; LF; DQUOTE; COMMA; CR; LF].
Proof. reflexivity. Qed.

Example quoted_csv_read :
  csv_reader (readlines
    (writerows [[("a,b"%string : str); [DQUOTE]; [CR; LF]; []]; []; [[]]]))
  = ([[("a,b"%string : str); [DQUOTE]; [CR; LF]; []]; []; [[]]], None).
Proof. reflexivity. Qed.

Lemma readlines_nonempty (s : str) : s <> [] -> readlines s <> [].
Proof.
  destruct s as [|c s]; [congruence|]. intros _. cbn [readlines].
  destruct (Ascii.eqb c LF); [discriminate|].
  destruct (Ascii.eqb c CR).
  - destruct s as [|c' s]; [discriminate|]. destruct (Ascii.eqb c' LF); discriminate.
  - destruct (readlines s); discriminate.
Qed.

Lemma is_newline_false (c : ascii) :
  is_newline c = false -> Ascii.eqb c LF = false /\ Ascii.eqb c CR = false.
Proof. unfold is_newline. intros H. apply orb_false_elim in H. exact H. Qed.

(** A character other than CR and LF, with more text behind it, is one
    step of the machine. *)
Lemma Reader_text_char (self : ReaderObj) (c : ascii) (s : str) :
  is_newline c = false -> s <> [] ->
  Reader_text self (c :: s) =
  match parse_process_char self (Some c) with
  | Raise e => ([], Some e)
  | Return self' => Reader_text self' s
  end.
Proof.
  intros Hc Hs. apply is_newline_false in Hc as [Hlf Hcr].
  unfold Reader_text. cbn [readlines]. rewrite Hlf, Hcr.
  pose proof (readlines_nonempty s Hs) as Hne.
  destruct (readlines s) as [|line lines]; [congruence|].
  cbn [Reader_iter]. unfold parse_line. cbn [parse_chars].
  destruct (parse_process_char self (Some c)) as [self'|e]; reflexivity.
Qed.

Lemma Reader_text_crlf (self : ReaderObj) (s : str) :
  Reader_text self (CR :: LF :: s) = after_line self [CR; LF] s.
Proof. reflexivity. Qed.

Lemma Reader_text_lf (self : ReaderObj) (s : str) :
  Reader_text self (LF :: s) = after_line self [LF] s.
Proof. reflexivity. Qed.

Lemma Reader_text_cr (self : ReaderObj) (s : str) :
  no_lf_ahead s -> Reader_text self (CR :: s) = after_line self [CR] s.
Proof.
  destruct s as [|c s]; [contradiction|]. cbn [no_lf_ahead]. intros H.
  assert (E : readlines (CR :: c :: s) = [CR] :: readlines (c :: s)).
  { change (readlines (CR :: c :: s))
      with (if Ascii.eqb c LF then [CR; c] :: readlines s
            else [CR] :: readlines (c :: s)).
    rewrite H. reflexivity. }
  unfold Reader_text, after_line. rewrite E. reflexivity.
Qed.

(** *** The machine inside a field *)

Lemma parse_add_char_fits st fs fld c :
  fits (fld ++ [c]) ->
  parse_add_char (mk st fs fld) c = Return (mk st fs (fld ++ [c])).
Proof.
  unfold fits, parse_add_char. cbn [field fields state].
  rewrite length_app. cbn [length]. intros H.
  destruct (N.leb_spec field_limit (N.of_nat (length fld))); [lia|reflexivity].
Qed.

Lemma fits_app_l (a b : str) : fits (a ++ b) -> fits a.
Proof. unfold fits. rewrite length_app. lia. Qed.

Lemma fits_snoc (a : str) c (b : str) : fits (a ++ c :: b) -> fits ((a ++ [c]) ++ b).
Proof. now rewrite <- app_assoc. Qed.

Lemma fits_first (a : str) c (b : str) : fits (a ++ c :: b) -> fits (a ++ [c]).
Proof. intros H. eapply fits_app_l, fits_snoc, H. Qed.

Lemma special_false (c : ascii) :
  special c = false ->
  Ascii.eqb c COMMA = false /\ Ascii.eqb c DQUOTE = false /\ is_newline c = false.
Proof.
  unfold special, is_newline, lineterminator. cbn [existsb].
  destruct (Ascii.eqb c COMMA), (Ascii.eqb c DQUOTE), (Ascii.eqb c CR),
    (Ascii.eqb c LF); cbn; intros; try discriminate; auto.
Qed.

Ltac is_char_const c :=
  lazymatch c with
  | CR => idtac | LF => idtac | COMMA => idtac | DQUOTE => idtac
  end.

(** Run the machine on the characters in sight. *)
Ltac machine :=
  repeat first
    [ progress cbn [parse_process_char parse_start_field parse_line parse_chars
                    state fields field bind eqb_state]
    | progress unfold set_state, parse_save_field, parse_line
    | rewrite parse_add_char_fits by eauto using fits_first, fits_snoc
    | match goal with
      | H : Ascii.eqb _ _ = _ |- _ => rewrite H
      | H : is_newline _ = _ |- _ => rewrite H
      | |- context [Ascii.eqb ?a ?b] =>
          is_char_const a; is_char_const b;
          let v := eval cbv in (Ascii.eqb a b) in
          change (Ascii.eqb a b) with v
      | |- context [is_newline ?a] =>
          is_char_const a;
          let v := eval cbv in (is_newline a) in
          change (is_newline a) with v
      end ].

(** Unquoted text: characters that need no quoting are added one by one. *)
Lemma read_plain (f : str) : forall fs fld k,
  forallb (fun c => negb (special c)) f = true ->
  fits (fld ++ f) -> k <> [] ->
  Reader_text (mk IN_FIELD fs fld) (f ++ k) =
  Reader_text (mk IN_FIELD fs (fld ++ f)) k.
Proof.
  induction f as [|c f IH]; intros fs fld k Hp Hfit Hk.
  - now rewrite app_nil_r.
  - cbn [forallb] in Hp. apply andb_prop in Hp as [Hc Hp].
    apply negb_true_iff, special_false in Hc as (Hcomma & Hq & Hnl).
    cbn [app]. rewrite Reader_text_char by (auto; destruct f; cbn; congruence).
    machine.
    rewrite IH by (auto using fits_snoc). now rewrite <- app_assoc.
Qed.

Lemma join_append_data_cons (c : ascii) (f : str) :
  join_append_data (c :: f) =
  (if Ascii.eqb c DQUOTE then [DQUOTE; DQUOTE] else [c]) ++ join_append_data f.
Proof. reflexivity. Qed.

Lemma no_lf_ahead_data (f : str) (k : str) :
  match f with c :: _ => Ascii.eqb c LF = false | [] => True end ->
  no_lf_ahead (join_append_data f ++ DQUOTE :: k).
Proof.
  destruct f as [|c f]; [reflexivity|]. intros H.
  rewrite join_append_data_cons.
  destruct (Ascii.eqb c DQUOTE); [reflexivity | exact H].
Qed.

(** Quoted text: every character goes into the field, a doubled quote
    once, and line ends inside the quotes do not end the record. *)
Lemma read_quoted (n : nat) : forall (f : str) fs fld k,
  (length f <= n)%nat -> fits (fld ++ f) ->
  Reader_text (mk IN_QUOTED_FIELD fs fld) (join_append_data f ++ DQUOTE :: k) =
  Reader_text (mk IN_QUOTED_FIELD fs (fld ++ f)) (DQUOTE :: k).
Proof.
  induction n as [|n IH]; intros f fs fld k Hlen Hfit.
  { destruct f; [now rewrite app_nil_r | cbn in Hlen; lia]. }
  destruct f as [|c f]; [now rewrite app_nil_r|].
  cbn [length] in Hlen. rewrite join_append_data_cons.
  assert (Hne : join_append_data f ++ DQUOTE :: k <> [])
    by (destruct (join_append_data f); discriminate).
  destruct (Ascii.eqb c DQUOTE) eqn:Hq.
  - apply Ascii.eqb_eq in Hq. subst c. cbn [app].
    rewrite Reader_text_char by (auto; discriminate). machine.
    rewrite Reader_text_char by auto. machine.
    rewrite IH by (auto using fits_snoc; lia). now rewrite <- app_assoc.
  - cbn [app]. destruct (Ascii.eqb c LF) eqn:Hlf.
    + apply Ascii.eqb_eq in Hlf. subst c.
      rewrite Reader_text_lf. unfold after_line. machine.
      rewrite IH by (auto using fits_snoc; lia). now rewrite <- app_assoc.
    + destruct (Ascii.eqb c CR) eqn:Hcr.
      * apply Ascii.eqb_eq in Hcr. subst c.
        destruct f as [|c' f].
        { rewrite Reader_text_cr by reflexivity.
          unfold after_line. machine. reflexivity. }
        destruct (Ascii.eqb c' LF) eqn:Hlf'.
        { apply Ascii.eqb_eq in Hlf'. subst c'.
          rewrite join_append_data_cons. machine. cbn [app].
          rewrite Reader_text_crlf. unfold after_line. machine.
          cbn [length] in Hlen.
          rewrite IH by (auto using fits_snoc; lia). now rewrite <- !app_assoc. }
        rewrite Reader_text_cr by (apply no_lf_ahead_data; exact Hlf').
        unfold after_line. machine.
        rewrite IH by (auto using fits_snoc; cbn [length] in *; lia).
        now rewrite <- app_assoc.
      * rewrite Reader_text_char
          by (auto; unfold is_newline; rewrite Hlf, Hcr; reflexivity).
        machine.
        rewrite IH by (auto using fits_snoc; lia). now rewrite <- app_assoc.
Qed.

(** *** One field, one record, a whole file *)

Lemma join_append_data_plain (f : str) :
  existsb special f = false -> join_append_data f = f.
Proof.
  induction f as [|c f IH]; [reflexivity|]. cbn [existsb]. intros H.
  apply orb_false_elim in H as [Hc Hf].
  apply special_false in Hc as (_ & Hq & _).
  rewrite join_append_data_cons, Hq, IH by exact Hf. reflexivity.
Qed.

Lemma field_text_quoted (f : str) :
  existsb special f = true ->
  field_text f = DQUOTE :: join_append_data f ++ [DQUOTE].
Proof. unfold field_text, join_append. cbn. now intros ->. Qed.

Lemma field_text_plain (f : str) :
  existsb special f = false -> field_text f = f.
Proof.
  intros H. unfold field_text, join_append. cbn. rewrite H. cbn.
  now rewrite app_nil_r, join_append_data_plain.
Qed.

Lemma existsb_not_forallb (f : str) :
  existsb special f = false -> forallb (fun c => negb (special c)) f = true.
Proof.
  induction f as [|c f IH]; [reflexivity|]. cbn. intros H.
  apply orb_false_elim in H as [-> Hf]. now rewrite IH.
Qed.

Lemma read_field (f : str) fs k :
  fits f -> k <> [] ->
  exists st, field_done st /\
    Reader_text (mk START_FIELD fs []) (field_text f ++ k) =
    Reader_text (mk st fs f) k.
Proof.
  intros Hfit Hk. destruct (existsb special f) eqn:Hsp.
  - exists QUOTE_IN_QUOTED_FIELD. split; [unfold field_done; auto|].
    rewrite field_text_quoted by exact Hsp. cbn [app]. rewrite <- app_assoc.
    cbn [app].
    rewrite Reader_text_char
      by (try reflexivity; destruct (join_append_data f); discriminate).
    machine. rewrite (read_quoted (length f)) by auto. cbn [app].
    rewrite Reader_text_char by (auto; reflexivity). machine. reflexivity.
  - rewrite field_text_plain by exact Hsp. destruct f as [|c f].
    + exists START_FIELD. split; [unfold field_done; auto|reflexivity].
    + exists IN_FIELD. split; [unfold field_done; auto|].
      pose proof (existsb_not_forallb _ Hsp) as Hp. cbn [forallb] in Hp.
      apply andb_prop in Hp as [Hc Hp].
      apply negb_true_iff, special_false in Hc as (Hcomma & Hq & Hnl).
      cbn [app]. rewrite Reader_text_char by (auto; destruct f; cbn; congruence).
      assert (Hfit' : fits ([] ++ c :: f)) by exact Hfit.
      machine. rewrite read_plain by auto using fits_snoc. reflexivity.
Qed.

Lemma field_done_comma st fs fld k :
  field_done st -> k <> [] ->
  Reader_text (mk st fs fld) (COMMA :: k) =
  Reader_text (mk START_FIELD (fs ++ [fld]) []) k.
Proof.
  intros Hst Hk. rewrite Reader_text_char by (auto; reflexivity).
  destruct Hst as [-> | [-> | ->]]; machine; reflexivity.
Qed.

Lemma field_done_crlf st fs fld rest :
  field_done st ->
  Reader_text (mk st fs fld) (CR :: LF :: rest) =
  let '(rows, stop) := Reader_text parse_reset rest in
  ((fs ++ [fld]) :: rows, stop).
Proof.
  intros Hst. rewrite Reader_text_crlf. unfold after_line.
  destruct Hst as [-> | [-> | ->]]; machine; reflexivity.
Qed.

Lemma app_app_cons_nonempty {A} (a b : list A) (c : A) (d : list A) :
  a ++ b ++ c :: d <> [].
Proof. destruct a, b; discriminate. Qed.

Lemma read_fields (row : list str) : forall f fs rest,
  Forall fits (f :: row) ->
  Reader_text (mk START_FIELD fs [])
    (field_text f ++ more_fields row ++ CR :: LF :: rest) =
  let '(rows, stop) := Reader_text parse_reset rest in
  ((fs ++ f :: row) :: rows, stop).
Proof.
  induction row as [|g row IH]; intros f fs rest Hfit;
    apply Forall_cons_iff in Hfit as [Hf Hrow].
  - cbn [more_fields flat_map app].
    destruct (read_field f fs (CR :: LF :: rest) Hf ltac:(discriminate))
      as (st & Hst & ->).
    now apply field_done_crlf.
  - cbn [more_fields flat_map app]. fold (more_fields row).
    rewrite <- app_assoc.
    destruct (read_field f fs
                (COMMA :: field_text g ++ more_fields row ++ CR :: LF :: rest)
                Hf ltac:(discriminate))
      as (st & Hst & ->).
    rewrite field_done_comma by auto using app_app_cons_nonempty.
    rewrite IH by exact Hrow. rewrite <- app_assoc. reflexivity.
Qed.

(** Leaving [START_RECORD] on a character that is no line end. *)
Lemma start_record (c : ascii) (s : str) :
  is_newline c = false -> s <> [] ->
  Reader_text parse_reset (c :: s) = Reader_text (mk START_FIELD [] []) (c :: s).
Proof.
  intros Hc Hs. rewrite !Reader_text_char by auto.
  unfold parse_reset. machine. reflexivity.
Qed.

Lemma join_fields_more (row : list str) : forall rec n,
  (0 < n)%nat ->
  join_fields rec n row = (rec ++ more_fields row, (n + length row)%nat).
Proof.
  induction row as [|g row IH]; intros rec n Hn; cbn [join_fields].
  - cbn. now rewrite app_nil_r, Nat.add_0_r.
  - rewrite IH by lia. f_equal; [|cbn [length]; lia].
    unfold join_append at 1. destruct n; [lia|]. cbn [Nat.ltb Nat.leb orb].
    unfold more_fields at 2. cbn [flat_map]. fold (more_fields row).
    unfold field_text, join_append. cbn [Nat.ltb Nat.leb orb app].
    rewrite <- ?app_assoc. cbn [app]. rewrite <- ?app_assoc. reflexivity.
Qed.

Lemma field_text_nil (f : str) : field_text f = [] -> f = [].
Proof.
  destruct (existsb special f) eqn:Hsp.
  - rewrite field_text_quoted by exact Hsp. discriminate.
  - now rewrite field_text_plain by exact Hsp.
Qed.

Lemma writerow_cons (f : str) (row : list str) :
  f <> [] \/ row <> [] ->
  writerow (f :: row) = field_text f ++ more_fields row ++ lineterminator.
Proof.
  intros Hne. unfold writerow. cbn [join_fields].
  rewrite join_fields_more by lia. fold (field_text f).
  cbn [Nat.add Nat.ltb Nat.leb andb].
  destruct (field_text f ++ more_fields row) as [|c t] eqn:E.
  - apply app_eq_nil in E as [Ef Er]. apply field_text_nil in Ef.
    destruct Hne as [Hf | Hr]; [congruence|].
    destruct row; [congruence | discriminate].
  - cbn [length Nat.eqb]. rewrite <- E, <- app_assoc. reflexivity.
Qed.

Lemma field_text_head (f : str) (k : str) :
  f <> [] -> k <> [] ->
  exists c s, field_text f ++ k = c :: s /\ is_newline c = false /\ s <> [].
Proof.
  intros Hf Hk. destruct (existsb special f) eqn:Hsp.
  - rewrite field_text_quoted by exact Hsp.
    exists DQUOTE, ((join_append_data f ++ [DQUOTE]) ++ k).
    split; [reflexivity|]. split; [reflexivity|].
    rewrite <- app_assoc. destruct (join_append_data f); discriminate.
  - rewrite field_text_plain by exact Hsp. destruct f as [|c f]; [congruence|].
    exists c, (f ++ k). split; [reflexivity|].
    cbn [existsb] in Hsp. apply orb_false_elim in Hsp as [Hc _].
    apply special_false in Hc as (_ & _ & Hnl). split; [exact Hnl|].
    destruct f; cbn; congruence.
Qed.

(** One record written by [writerow] is one record for the reader. *)
Lemma read_writerow (row : list str) (rest : str) :
  Forall fits row ->
  Reader_text parse_reset (writerow row ++ rest) =
  let '(rows, stop) := Reader_text parse_reset rest in (row :: rows, stop).
Proof.
  intros Hfit. destruct row as [|f row].
  - change (writerow [] ++ rest) with (CR :: LF :: rest).
    rewrite Reader_text_crlf. unfold after_line, parse_reset. machine.
    reflexivity.
  - destruct f as [|c f]; [destruct row as [|g row]|].
    + change (writerow [[]] ++ rest) with (DQUOTE :: DQUOTE :: CR :: LF :: rest).
      rewrite start_record by (reflexivity || discriminate).
      rewrite Reader_text_char by (reflexivity || discriminate). machine.
      rewrite Reader_text_char by (reflexivity || discriminate). machine.
      rewrite (field_done_crlf QUOTE_IN_QUOTED_FIELD)
        by (unfold field_done; auto).
      reflexivity.
    + rewrite writerow_cons by (right; discriminate).
      rewrite <- !app_assoc. change (lineterminator ++ rest) with (CR :: LF :: rest).
      assert (E : field_text [] = []) by reflexivity.
      pose proof (read_fields (g :: row) [] [] rest Hfit) as H.
      rewrite E in *. cbn [app] in *.
      cbn [more_fields flat_map app] in *. fold (more_fields row) in *.
      rewrite start_record
        by (reflexivity
            || (destruct (field_text g ++ more_fields row); discriminate)).
      exact H.
    + rewrite writerow_cons by (left; discriminate).
      rewrite <- !app_assoc. change (lineterminator ++ rest) with (CR :: LF :: rest).
      pose proof (read_fields row (c :: f) [] rest Hfit) as H.
      destruct (field_text_head (c :: f) (more_fields row ++ CR :: LF :: rest))
        as (c' & s & E & Hc' & Hs);
        [discriminate | destruct (more_fields row); discriminate |].
      rewrite E in *. rewrite start_record by auto. exact H.
Qed.

Lemma writerows_cons (row : list str) (rows : list (list str)) :
  writerows (row :: rows) = writerow row ++ writerows rows.
Proof. reflexivity. Qed.

(** The reader gives back the rows that the writer was given, and then
    stops without an error. *)
Lemma csv_reader_writerows (rows : list (list str)) :
  Forall (Forall fits) rows ->
  csv_reader (readlines (writerows rows)) = (rows, None).
Proof.
  change (csv_reader (readlines (writerows rows)))
    with (Reader_text parse_reset (writerows rows)).
  induction rows as [|row rows IH]; intros Hfit.
  - reflexivity.
  - apply Forall_cons_iff in Hfit as [Hrow Hrows].
    rewrite writerows_cons, read_writerow by exact Hrow.
    now rewrite IH.
Qed.

(** ** Lists, dicts, [mapM] *)

Lemma eqb_str_eq (a b : str) : eqb_str a b = true <-> a = b.
Proof.
  revert b. induction a as [|x a IH]; intros [|y b]; cbn; try easy.
  rewrite andb_true_iff, Ascii.eqb_eq, IH. split.
  - now intros [-> ->].
  - intros [= -> ->]. easy.
Qed.

Lemma eqb_str_refl (a : str) : eqb_str a a = true.
Proof. now apply eqb_str_eq. Qed.

Lemma eqb_row_eq (a b : list str) : eqb_row a b = true <-> a = b.
Proof.
  revert b. induction a as [|x a IH]; intros [|y b]; cbn; try easy.
  rewrite andb_true_iff, eqb_str_eq, IH. split.
  - now intros [-> ->].
  - intros [= -> ->]. easy.
Qed.

Lemma eqb_row_refl (a : list str) : eqb_row a a = true.
Proof. now apply eqb_row_eq. Qed.

Lemma index_of_Some (x : str) (l : list str) (k : nat) :
  index_of eqb_str x l = Some k -> nth_error l k = Some x.
Proof.
  revert k. induction l as [|y l IH]; intros k; cbn; [discriminate|].
  destruct (eqb_str y x) eqn:E.
  - intros [= <-]. apply eqb_str_eq in E. now subst.
  - destruct (index_of eqb_str x l) as [k'|]; [|discriminate].
    intros [= <-]. cbn. now apply IH.
Qed.

Lemma index_of_In (x : str) (l : list str) :
  In x l -> exists k, index_of eqb_str x l = Some k.
Proof.
  induction l as [|y l IH]; cbn; [easy|]. intros H.
  destruct (eqb_str y x) eqn:E; [now exists 0%nat|].
  destruct H as [-> | H]; [now rewrite eqb_str_refl in E|].
  destruct (IH H) as [k ->]. now exists (S k).
Qed.

Lemma list_index_In (x : str) (l : list str) :
  In x l -> exists k, list_index l x = Return k /\ nth_error l k = Some x.
Proof.
  intros H. destruct (index_of_In x l H) as [k Hk]. exists k.
  unfold list_index. rewrite Hk. split; [reflexivity|].
  now apply index_of_Some.
Qed.

Lemma list_index_nth (x : str) (l : list str) (k : nat) :
  list_index l x = Return k -> nth_error l k = Some x.
Proof.
  unfold list_index. destruct (index_of eqb_str x l) eqn:E; [|discriminate].
  intros [= <-]. now apply index_of_Some.
Qed.

Lemma del_item_length {A} (l : list A) (k : nat) :
  (k < length l)%nat -> S (length (del_item l k)) = length l.
Proof.
  revert k. induction l as [|a l IH]; intros [|k]; cbn; try lia.
  intros H. rewrite IH by lia. reflexivity.
Qed.

Lemma nth_error_enumerate_from {A} (l : list A) (j p : nat) :
  nth_error (enumerate_from j l) p =
  option_map (fun v => ((j + p)%nat, v)) (nth_error l p).
Proof.
  revert j p. induction l as [|a l IH]; intros j [|p]; cbn; try reflexivity.
  - now rewrite Nat.add_0_r.
  - rewrite IH. now replace (S j + p)%nat with (j + S p)%nat by lia.
Qed.

Lemma length_enumerate_from {A} (l : list A) (j : nat) :
  length (enumerate_from j l) = length l.
Proof. revert j. induction l; intros; cbn; auto. Qed.

(** Leaving out index [k] by filtering the enumeration is [del_item]. *)
Lemma filter_enumerate_above {A} (l : list A) (j k : nat) :
  (k < j)%nat ->
  map snd (List.filter (fun '(i, _) => negb (Nat.eqb i k)) (enumerate_from j l)) = l.
Proof.
  revert j. induction l as [|a l IH]; intros j Hk; cbn; [reflexivity|].
  destruct (Nat.eqb_spec j k); [lia|]. cbn. now rewrite IH by lia.
Qed.

Lemma filter_enumerate_del {A} (l : list A) (j k : nat) :
  map snd (List.filter (fun '(i, _) => negb (Nat.eqb i (j + k))) (enumerate_from j l))
  = del_item l k.
Proof.
  revert j k. induction l as [|a l IH]; intros j k; cbn.
  - now destruct k.
  - destruct k as [|k].
    + rewrite Nat.add_0_r, Nat.eqb_refl. cbn.
      apply filter_enumerate_above; lia.
    + destruct (Nat.eqb_spec j (j + S k)); [lia|]. cbn.
      replace (j + S k)%nat with (S j + k)%nat by lia. now rewrite IH.
Qed.

Lemma mapM_length {A B} (f : A -> result B) (l : list A) (out : list B) :
  mapM f l = Return out -> length out = length l.
Proof.
  revert out. induction l as [|a l IH]; intros out; cbn.
  - now intros [= <-].
  - destruct (f a); [|discriminate]. cbn.
    destruct (mapM f l); [|discriminate]. cbn. intros [= <-]. cbn.
    now rewrite IH.
Qed.

Lemma mapM_nth {A B} (f : A -> result B) (l : list A) (out : list B) i a :
  mapM f l = Return out -> nth_error l i = Some a ->
  exists b, f a = Return b /\ nth_error out i = Some b.
Proof.
  revert out i. induction l as [|x l IH]; intros out i; cbn.
  - now destruct i.
  - destruct (f x) as [y|] eqn:Ex; [|discriminate]. cbn.
    destruct (mapM f l) as [ys|]; [|discriminate]. cbn. intros [= <-].
    destruct i as [|i]; cbn.
    + intros [= <-]. now exists y.
    + intros Hi. now apply IH.
Qed.

Lemma mapM_total {A B} (f : A -> result B) (l : list A) :
  (forall a, In a l -> exists b, f a = Return b) ->
  exists out, mapM f l = Return out.
Proof.
  induction l as [|x l IH]; intros H; cbn; [now eexists|].
  destruct (H x) as [y ->]; [now left|].
  destruct IH as [ys ->]; [intros; apply H; now right|]. now eexists.
Qed.

Lemma mapM_fails {A B} (f : A -> result B) (l : list A) a e :
  In a l -> f a = Raise e ->
  (forall a' e', f a' = Raise e' -> e' = e) ->
  mapM f l = Raise e.
Proof.
  intros Hin Ha Hf. induction l as [|x l IH]; [easy|]. cbn.
  destruct (f x) as [y|e'] eqn:Ex; [|now rewrite (Hf _ _ Ex)]. cbn.
  destruct Hin as [-> | Hin]; [congruence|]. now rewrite IH.
Qed.

(** ** Header and rows of a conversion *)

Lemma filterRows_None null keep (rows : list (list value)) :
  filterRows null None keep rows = Return (map (map (stringify null)) rows).
Proof. reflexivity. Qed.

Lemma filterRows_drop null k (rows : list (list value)) :
  filterRows null (Some k) false rows =
  Return (map (fun raw => map (stringify null) (del_item raw k)) rows).
Proof.
  unfold filterRows. cbn [bind]. f_equal. rewrite map_map.
  apply map_ext. intros raw. f_equal. apply (filter_enumerate_del raw 0 k).
Qed.

(** What the comprehension of line 95 does to one field. *)
Lemma encode_blob_nth k (raw out : list value) :
  mapM (fun '(i, attr) =>
          if negb (Nat.eqb i k) then Return attr else b64encode_attr attr)
       (enumerate raw) = Return out ->
  length out = length raw /\
  forall j v, nth_error raw j = Some v ->
    if Nat.eqb j k
    then exists b, v = VBytes b
                   /\ nth_error out j = Some (VStr (decode_utf8 (b64encode b)))
    else nth_error out j = Some v.
Proof.
  intros H. split.
  - rewrite (mapM_length _ _ _ H). apply length_enumerate_from.
  - intros j v Hj.
    destruct (mapM_nth _ _ _ j (j, v) H) as (o & Ho & Hout).
    { unfold enumerate. now rewrite nth_error_enumerate_from, Hj. }
    cbn in Ho. destruct (Nat.eqb j k); cbn in Ho.
    + destruct v; try discriminate. injection Ho as <-. now exists b.
    + now injection Ho as <-.
Qed.

Lemma filterRows_keep null k (rows : list (list value)) table :
  filterRows null (Some k) true rows = Return table ->
  length table = length rows /\
  forall i raw, nth_error rows i = Some raw ->
    exists row, nth_error table i = Some row /\ length row = length raw /\
      forall j v, nth_error raw j = Some v ->
        if Nat.eqb j k
        then exists b, v = VBytes b
                       /\ nth_error row j = Some (decode_utf8 (b64encode b))
        else nth_error row j = Some (stringify null v).
Proof.
  unfold filterRows.
  destruct (mapM _ rows) as [rows'|] eqn:E; [|discriminate]. cbn [bind].
  intros [= <-]. split.
  - rewrite length_map. now apply mapM_length in E.
  - intros i raw Hi.
    destruct (mapM_nth _ _ _ i raw E Hi) as (out & Hout & Hnth).
    apply encode_blob_nth in Hout as [Hlen Hfields].
    exists (map (stringify null) out). split; [|split].
    + now rewrite nth_error_map, Hnth.
    + now rewrite length_map.
    + intros j v Hj. specialize (Hfields j v Hj).
      destruct (Nat.eqb j k).
      * destruct Hfields as (b & -> & Hb). exists b. split; [reflexivity|].
        now rewrite nth_error_map, Hb.
      * now rewrite nth_error_map, Hfields.
Qed.

Lemma filterRows_keep_total null k (rows : list (list value)) :
  (forall raw v, In raw rows -> nth_error raw k = Some v ->
                 exists b, v = VBytes b) ->
  exists table, filterRows null (Some k) true rows = Return table.
Proof.
  intros H. unfold filterRows.
  destruct (mapM_total
              (fun row => mapM (fun '(i, attr) =>
                 if negb (Nat.eqb i k) then Return attr
                 else b64encode_attr attr) (enumerate row)) rows) as [t ->].
  - intros raw Hraw. apply mapM_total. intros [i v] Hin.
    apply In_nth_error in Hin as [p Hp]. unfold enumerate in Hp.
    rewrite nth_error_enumerate_from in Hp. cbn in Hp.
    destruct (nth_error raw p) as [v'|] eqn:Ev; [|discriminate].
    injection Hp as <- <-.
    destruct (Nat.eqb_spec p k) as [->|]; cbn; [|now eexists].
    destruct (H raw v' Hraw Ev) as [b ->]. now eexists.
  - now eexists.
Qed.

Lemma filterRows_keep_fails null k (rows : list (list value)) raw v :
  In raw rows -> nth_error raw k = Some v -> (forall b, v <> VBytes b) ->
  filterRows null (Some k) true rows = Raise TypeError.
Proof.
  intros Hraw Hv Hnb. unfold filterRows.
  assert (Hf : forall (a' : nat * value) e',
             (let '(i, attr) := a' in
              if negb (Nat.eqb i k) then Return attr else b64encode_attr attr)
             = Raise e' -> e' = TypeError).
  { intros [i a] e'. destruct (negb (Nat.eqb i k)); [discriminate|].
    destruct a; cbn; congruence. }
  rewrite (mapM_fails _ rows raw TypeError); [reflexivity|exact Hraw| |].
  - apply (mapM_fails _ _ (k, v)).
    + apply (nth_error_In _ k). unfold enumerate.
      now rewrite nth_error_enumerate_from, Hv.
    + rewrite Nat.eqb_refl. cbn. destruct v; try reflexivity.
      now destruct (Hnb b).
    + exact Hf.
  - intros raw' e' Hr.
    destruct (mapM _ (enumerate raw')) eqn:E; [discriminate|].
    injection Hr as <-.
    clear -E Hf. induction (enumerate raw') as [|x l IH]; [discriminate|].
    cbn in E. destruct x as [i a].
    destruct (if negb (Nat.eqb i k) then Return a else b64encode_attr a)
      as [y|e''] eqn:Ex.
    + cbn in E. destruct (mapM _ l); [discriminate|]. cbn in E.
      injection E as <-. now apply IH.
    + cbn in E. injection E as <-. apply (Hf (i, a)). exact Ex.
Qed.

(** The three ways [convertTable] reaches its header and table. *)
Lemma convertTable_rows_unregistered null blobs conn tableName keep cur :
  execute_select conn tableName = Return cur ->
  dict_get blobs tableName = None ->
  convertTable_rows null blobs conn tableName keep =
  Return (description cur, map (map (stringify null)) (fetchall cur)).
Proof.
  intros Hc Hb. unfold convertTable_rows, find_blobColumn.
  rewrite Hc, Hb. reflexivity.
Qed.

Lemma convertTable_rows_registered null blobs conn tableName keep cur column k :
  execute_select conn tableName = Return cur ->
  dict_get blobs tableName = Some column ->
  list_index (description cur) column = Return k ->
  convertTable_rows null blobs conn tableName keep =
  let* table := filterRows null (Some k) keep (fetchall cur) in
  Return (if negb keep then del_item (description cur) k else description cur,
          table).
Proof.
  intros Hc Hb Hk. unfold convertTable_rows, find_blobColumn.
  rewrite Hc, Hb. cbn [bind]. rewrite Hk. reflexivity.
Qed.

(** ** Blob columns, NULL values and row widths *)

(** C2.  For a table of the blob registry whose blob fields are bytes,
    the export with [keepBlobs = True] returns the full header, with the
    blob column's name at its index [k], and in every row the field at
    [k] is the base64 text of the raw bytes, which the standard base64
    decoding turns back into exactly those bytes. *)
Theorem blob_retained (null : str) (blobs : list (str * str))
    (conn : Connection) (tableName column : str) (cur : table) (k : nat) :
  execute_select conn tableName = Return cur ->
  dict_get blobs tableName = Some column ->
  list_index (description cur) column = Return k ->
  (forall raw, In raw (fetchall cur) -> exists b, nth_error raw k = Some (VBytes b)) ->
  exists table,
    convertTable_rows null blobs conn tableName true
      = Return (description cur, table)
    /\ nth_error (description cur) k = Some column
    /\ length table = length (fetchall cur)
    /\ forall i raw b,
         nth_error (fetchall cur) i = Some raw ->
         nth_error raw k = Some (VBytes b) ->
         exists row,
           nth_error table i = Some row
           /\ nth_error row k = Some (decode_utf8 (b64encode b))
           /\ b64decode (decode_utf8 (b64encode b)) = Some b.
Proof.
  intros Hc Hb Hk Hbytes.
  rewrite (convertTable_rows_registered _ _ _ _ _ _ _ _ Hc Hb Hk).
  destruct (filterRows_keep_total null k (fetchall cur)) as [table Ht].
  { intros raw v Hraw Hv. destruct (Hbytes raw Hraw) as [b Hb'].
    exists b. congruence. }
  exists table. rewrite Ht. cbn [bind negb].
  apply filterRows_keep in Ht as [Hlen Hrows].
  repeat split; auto using list_index_nth.
  intros i raw b Hi Hv. destruct (Hrows i raw Hi) as (row & Hrow & _ & Hf).
  exists row. split; [exact Hrow|]. split; [|apply b64decode_b64encode].
  specialize (Hf k (VBytes b) Hv). rewrite Nat.eqb_refl in Hf.
  destruct Hf as (b' & [= <-] & Hb'). exact Hb'.
Qed.

Lemma blob_retained_witness :
  exists table,
    convertTable_rows NULL_CONVERT BLOBS sample_db ("Categories"%string : str) true
      = Return (description Categories, table)
    /\ nth_error (description Categories) 3 = Some ("Picture"%string : str)
    /\ length table = length (fetchall Categories)
    /\ forall i raw b,
         nth_error (fetchall Categories) i = Some raw ->
         nth_error raw 3 = Some (VBytes b) ->
         exists row,
           nth_error table i = Some row
           /\ nth_error row 3 = Some (decode_utf8 (b64encode b))
           /\ b64decode (decode_utf8 (b64encode b)) = Some b.
Proof.
  apply (blob_retained NULL_CONVERT BLOBS sample_db
           ("Categories"%string : str) ("Picture"%string : str) Categories 3).
  - reflexivity.
  - reflexivity.
  - reflexivity.
  - intros raw [<- | [<- | [<- | []]]]; eexists; reflexivity.
Defined.

(** C3.  For a table of the blob registry, the export with
    [keepBlobs = False] returns the column names without the one at the
    blob column's index [k], and every row without its field at [k], so
    one field shorter than the raw row; for a table that is not in the
    registry, header and row widths are those of the query. *)
Theorem blob_omitted (null : str) (blobs : list (str * str))
    (conn : Connection) (tableName : str) (cur : table) :
  execute_select conn tableName = Return cur ->
  (forall raw, In raw (fetchall cur) -> length raw = length (description cur)) ->
  (forall column k,
     dict_get blobs tableName = Some column ->
     list_index (description cur) column = Return k ->
     convertTable_rows null blobs conn tableName false
       = Return (del_item (description cur) k,
                 map (fun raw => map (stringify null) (del_item raw k))
                     (fetchall cur))
     /\ nth_error (description cur) k = Some column
     /\ S (length (del_item (description cur) k)) = length (description cur)
     /\ forall raw, In raw (fetchall cur) ->
          S (length (map (stringify null) (del_item raw k))) = length raw)
  /\ (dict_get blobs tableName = None ->
      forall keep,
        convertTable_rows null blobs conn tableName keep
          = Return (description cur, map (map (stringify null)) (fetchall cur))
        /\ forall raw, In raw (fetchall cur) ->
             length (map (stringify null) raw) = length raw).
Proof.
  intros Hc Hshape. split.
  - intros column k Hb Hk.
    rewrite (convertTable_rows_registered _ _ _ _ _ _ _ _ Hc Hb Hk).
    rewrite filterRows_drop. cbn [bind negb].
    pose proof (list_index_nth _ _ _ Hk) as Hnth.
    assert (Hlt : (k < length (description cur))%nat)
      by (apply nth_error_Some; congruence).
    repeat split; auto using del_item_length.
    intros raw Hraw. rewrite length_map. apply del_item_length.
    now rewrite (Hshape raw Hraw).
  - intros Hb keep.
    rewrite (convertTable_rows_unregistered _ _ _ _ _ _ Hc Hb).
    split; [reflexivity|]. intros raw _. apply length_map.
Qed.

Lemma blob_omitted_witness :
  convertTable_rows NULL_CONVERT BLOBS sample_db ("Categories"%string : str) false
    = Return (del_item (description Categories) 3,
              map (fun raw => map (stringify NULL_CONVERT) (del_item raw 3))
                  (fetchall Categories))
  /\ nth_error (description Categories) 3 = Some ("Picture"%string : str)
  /\ S (length (del_item (description Categories) 3))
     = length (description Categories)
  /\ forall raw, In raw (fetchall Categories) ->
       S (length (map (stringify NULL_CONVERT) (del_item raw 3))) = length raw.
Proof.
  apply (blob_omitted NULL_CONVERT BLOBS sample_db
           ("Categories"%string : str) Categories).
  - reflexivity.
  - intros raw [<- | [<- | [<- | []]]]; reflexivity.
  - reflexivity.
  - reflexivity.
Defined.



(** C5.  When every raw row has one field for each column of the query,
    every row of the table that [convertTable] writes has as many fields
    as the header it writes, with blobs kept or dropped. *)
Theorem header_row_cardinality (null : str) (blobs : list (str * str))
    (conn : Connection) (tableName : str) (keep : bool) (cur : table)
    (header : list str) (table : list (list str)) :
  execute_select conn tableName = Return cur ->
  (forall raw, In raw (fetchall cur) -> length raw = length (description cur)) ->
  convertTable_rows null blobs conn tableName keep = Return (header, table) ->
  forall row, In row table -> length row = length header.
Proof.
  intros Hc Hshape Ht row Hrow.
  destruct (dict_get blobs tableName) as [column|] eqn:Hb.
  - destruct (list_index (description cur) column) as [k|] eqn:Hk.
    + rewrite (convertTable_rows_registered _ _ _ _ _ _ _ _ Hc Hb Hk) in Ht.
      pose proof (list_index_nth _ _ _ Hk) as Hnth.
      assert (Hlt : (k < length (description cur))%nat)
        by (apply nth_error_Some; congruence).
      destruct keep.
      * destruct (filterRows null (Some k) true (fetchall cur)) as [t|] eqn:E;
          [|discriminate].
        cbn [bind negb] in Ht. injection Ht as <- <-.
        apply filterRows_keep in E as [Hlen Hrows].
        apply In_nth_error in Hrow as [i Hi].
        assert (Hlt' : (i < length (fetchall cur))%nat)
          by (rewrite <- Hlen; apply nth_error_Some; congruence).
        apply nth_error_Some in Hlt'.
        destruct (nth_error (fetchall cur) i) as [raw|] eqn:Hraw; [|congruence].
        destruct (Hrows i raw Hraw) as (row' & Hrow' & Hl & _).
        assert (row' = row) by congruence. subst row'.
        rewrite Hl. apply Hshape. eapply nth_error_In, Hraw.
      * rewrite filterRows_drop in Ht. cbn [bind negb] in Ht.
        injection Ht as <- <-.
        apply in_map_iff in Hrow as (raw & <- & Hraw).
        rewrite length_map. apply Nat.succ_inj.
        rewrite !del_item_length; auto.
        now rewrite (Hshape raw Hraw).
    + unfold convertTable_rows, find_blobColumn in Ht.
      rewrite Hc, Hb in Ht. cbn [bind] in Ht. rewrite Hk in Ht. discriminate.
  - rewrite (convertTable_rows_unregistered _ _ _ _ _ _ Hc Hb) in Ht.
    injection Ht as <- <-.
    apply in_map_iff in Hrow as (raw & <- & Hraw).
    rewrite length_map. now apply Hshape.
Qed.

Lemma header_row_cardinality_witness :
  length [("2"%string : str);
          ("Dairy, "%string : str) ++ DQUOTE :: ("soft"%string : str) ++ [DQUOTE];
          []; []]
  = length (description Categories).
Proof.
  apply (header_row_cardinality NULL_CONVERT BLOBS sample_db
           ("Categories"%string : str) true Categories
           (description Categories)
           [[("1"%string : str); ("Beverages"%string : str); [];
             ("iVBORw=="%string : str)];
            [("2"%string : str);
             ("Dairy, "%string : str) ++ DQUOTE :: ("soft"%string : str) ++ [DQUOTE];
             []; []];
            [("3"%string : str); ("Grains"%string : str);
             ("two"%string : str) ++ CR :: LF :: ("lines"%string : str);
             ("AA=="%string : str)]]).
  - reflexivity.
  - intros raw [<- | [<- | [<- | []]]]; reflexivity.
  - reflexivity.
  - right. left. reflexivity.
Defined.

(** C10.  With [keepBlobs = True] the blob field is passed to
    [b64encode] before any NULL substitution: a row whose blob field is
    NULL makes the conversion raise [TypeError], before the CSV file is
    opened, and the conversion returns a table exactly when every blob
    field is a bytes value. *)
Theorem retained_blob_must_be_bytes (null : str) (blobs : list (str * str))
    (env : Env) (conn : Connection) (tableName csvPath column : str)
    (cur : table) (k : nat) :
  execute_select conn tableName = Return cur ->
  dict_get blobs tableName = Some column ->
  list_index (description cur) column = Return k ->
  ((exists raw, In raw (fetchall cur) /\ nth_error raw k = Some VNone) ->
   convertTable_rows null blobs conn tableName true = Raise TypeError
   /\ forall w,
        convertTable null blobs env conn tableName csvPath true w
        = (Raise TypeError, record (Converted tableName csvPath true) w))
  /\ ((exists header table,
         convertTable_rows null blobs conn tableName true
         = Return (header, table))
      <-> (forall raw v, In raw (fetchall cur) -> nth_error raw k = Some v ->
                         exists b, v = VBytes b)).
Proof.
  intros Hc Hb Hk.
  rewrite (convertTable_rows_registered _ _ _ _ _ _ _ _ Hc Hb Hk). split.
  - intros (raw & Hraw & Hnull).
    assert (E : (let* table := filterRows null (Some k) true (fetchall cur) in
                 Return (if negb true then del_item (description cur) k
                         else description cur, table)) = Raise TypeError).
    { rewrite (filterRows_keep_fails null k _ raw VNone);
        [reflexivity | exact Hraw | exact Hnull | intros b; discriminate]. }
    split; [exact E|]. intros w. unfold convertTable, io_bind, lift.
    rewrite (convertTable_rows_registered _ _ _ _ _ _ _ _ Hc Hb Hk), E.
    reflexivity.
  - split.
    + intros (header & table & Ht) raw v Hraw Hv.
      destruct (filterRows null (Some k) true (fetchall cur)) as [t|] eqn:E;
        [|discriminate].
      apply filterRows_keep in E as [_ Hrows].
      apply In_nth_error in Hraw as [i Hi].
      destruct (Hrows i raw Hi) as (row & _ & _ & Hf).
      specialize (Hf k v Hv). rewrite Nat.eqb_refl in Hf.
      destruct Hf as (b & -> & _). now exists b.
    + intros Hbytes.
      destruct (filterRows_keep_total null k (fetchall cur) Hbytes) as [t ->].
      now eexists _, _.
Qed.

Lemma retained_blob_must_be_bytes_witness :
  convertTable_rows NULL_CONVERT BLOBS
    [("Categories"%string : str, Categories_with_null)]
    ("Categories"%string : str) true
  = Raise TypeError.
Proof.
  apply (retained_blob_must_be_bytes NULL_CONVERT BLOBS offline
           [("Categories"%string : str, Categories_with_null)]
           ("Categories"%string : str) ("categories_base64.csv"%string : str)
           ("Picture"%string : str) Categories_with_null 3).
  - reflexivity.
  - reflexivity.
  - reflexivity.
  - exists [VInt 4; VStr []; VNone; VNone]. split; [|reflexivity].
    cbn. auto.
Defined.

(** ** The read-back check *)

Lemma check_rows_iff (table : list (list str)) (rows : list (list str)) :
  forall i stop,
    check_rows table i rows stop = Return tt <->
    stop = None /\
    forall j row, nth_error rows j = Some row ->
                  nth_error table (i + j) = Some row.
Proof.
  induction rows as [|r rows IH]; intros i stop; cbn [check_rows].
  - destruct stop as [e|].
    + split; [discriminate | intros [H _]; discriminate].
    + split; [|reflexivity]. intros _. split; [reflexivity|].
      intros [|j] row; discriminate.
  - destruct (nth_error table i) as [expected|] eqn:Hi.
    + destruct (eqb_row expected r) eqn:E.
      * apply eqb_row_eq in E. subst expected. rewrite IH. split.
        -- intros [-> H]. split; [reflexivity|]. intros [|j] row; cbn.
           ++ intros [= <-]. now rewrite Nat.add_0_r.
           ++ intros Hj. rewrite <- Nat.add_succ_comm. now apply H.
        -- intros [-> H]. split; [reflexivity|]. intros j row Hj.
           rewrite Nat.add_succ_comm. now apply H.
      * split; [discriminate|]. intros [_ H].
        specialize (H 0%nat r eq_refl). rewrite Nat.add_0_r, Hi in H.
        injection H as ->. now rewrite eqb_row_refl in E.
    + split; [discriminate|]. intros [_ H].
      specialize (H 0%nat r eq_refl). rewrite Nat.add_0_r in H. congruence.
Qed.

(** The check passes exactly when the reader, without raising, yields
    the header and then rows that each equal the row of the table with
    the same index. *)
Lemma check_readback_iff (header : list str) (table : list (list str))
    (text : str) :
  check_readback header table text = Return tt <->
  exists rows,
    csv_reader (readlines text) = (header :: rows, None)
    /\ forall j row, nth_error rows j = Some row -> nth_error table j = Some row.
Proof.
  unfold check_readback.
  destruct (csv_reader (readlines text)) as [[|header2 rows] stop].
  - destruct stop; split; try discriminate; now intros (? & [=] & _).
  - destruct (eqb_row header header2) eqn:E.
    + apply eqb_row_eq in E. subst header2. rewrite check_rows_iff. split.
      * intros [-> H]. now exists rows.
      * intros (rows' & Heq & H). injection Heq as -> ->. easy.
    + split; [discriminate|]. intros (rows' & Heq & _).
      injection Heq as -> _ _. now rewrite eqb_row_refl in E.
Qed.

Lemma check_readback_written (header : list str) (table : list (list str)) :
  Forall (Forall fits) (header :: table) ->
  check_readback header table (writerows (header :: table)) = Return tt.
Proof.
  intros Hfit. apply check_readback_iff. exists table.
  split; [now apply csv_reader_writerows|auto].
Qed.

(** *** A field beyond the field size limit *)






(** *** Writing the file and reading it back *)

Lemma decode_encode (s : str) : decode (encode s) = s.
Proof.
  unfold decode, encode. rewrite map_map.
  rewrite <- (map_id s) at 2. apply map_ext. apply ascii_of_byte_of_ascii.
Qed.

Lemma encode_app (a b : str) : encode (a ++ b) = encode a ++ encode b.
Proof. apply map_app. Qed.

Lemma perform_ok (env : Env) ev change w fs :
  reliable env -> change (cwd w) = Return fs ->
  perform env ev change w = (Return tt, {| cwd := fs; log := log w ++ [ev] |}).
Proof. intros Hrel Hc. unfold perform. now rewrite Hrel, Hc. Qed.

Lemma isdir_same_cwd (p : str) (w w' : world) (b : bool) :
  cwd w' = cwd w -> isdir p w = (Return b, w) -> isdir p w' = (Return b, w').
Proof. unfold isdir. intros -> [= ->]. reflexivity. Qed.

Lemma open_w_here (env : Env) (p : str) w :
  reliable env -> isdir p w = (Return false, w) ->
  open_w env (Here p) w
  = (Return tt, {| cwd := <[p := File []]> (cwd w);
                   log := log w ++ [Opened (Here p)] |}).
Proof.
  intros Hrel Hd. unfold open_w. apply perform_ok; [exact Hrel|].
  unfold isdir in Hd. cbn [create store].
  destruct (cwd w !! p) as [[|]|]; try reflexivity. discriminate.
Qed.

Lemma f_write_here (env : Env) (p : str) (old data : bytes) w :
  reliable env -> cwd w !! p = Some (File old) ->
  f_write env (Here p) data w
  = (Return tt, {| cwd := <[p := File (old ++ data)]> (cwd w);
                   log := log w ++ [Wrote (Here p) data] |}).
Proof.
  intros Hrel Hf. unfold f_write. apply perform_ok; [exact Hrel|].
  cbn [content store]. now rewrite Hf.
Qed.

Lemma write_rows (env : Env) (p : str) (table : list (list str)) :
  reliable env ->
  forall w old, cwd w !! p = Some (File old) ->
  exists w',
    for_each table (fun row => f_write env (Here p) (encode (writerow row))) w
    = (Return tt, w')
    /\ cwd w' !! p = Some (File (old ++ encode (writerows table))).
Proof.
  intros Hrel. induction table as [|row table IH]; intros w old Hf.
  - exists w. split; [reflexivity|]. now rewrite app_nil_r.
  - cbn [for_each]. unfold io_bind at 1.
    rewrite (f_write_here env p old _ w Hrel Hf).
    edestruct IH as (w' & -> & Hw'); [cbn [cwd]; apply lookup_insert_eq|].
    exists w'. split; [reflexivity|].
    now rewrite Hw', writerows_cons, encode_app, app_assoc.
Qed.

(** With working file operations, [convertTable] leaves the CSV text of
    header and table in the file and ends with the outcome of the
    read-back check on that text. *)
Lemma convertTable_run null blobs (env : Env) conn tableName csvPath keep
    header table w :
  convertTable_rows null blobs conn tableName keep = Return (header, table) ->
  reliable env -> isdir csvPath w = (Return false, w) ->
  exists w',
    convertTable null blobs env conn tableName csvPath keep w
    = (check_readback header table (writerows (header :: table)), w')
    /\ content (cwd w') (Here csvPath)
       = Some (encode (writerows (header :: table))).
Proof.
  intros Hrows Hrel Hd. unfold convertTable.
  unfold io_bind at 1. unfold io_bind at 1. unfold lift at 1. rewrite Hrows.
  unfold io_bind at 1.
  rewrite (open_w_here env csvPath
             (record (Converted tableName csvPath keep) w) Hrel
             (isdir_same_cwd csvPath w
                (record (Converted tableName csvPath keep) w) false eq_refl Hd)).
  unfold io_bind at 1.
  rewrite (f_write_here env csvPath [] _ _ Hrel)
    by (cbn [cwd]; apply lookup_insert_eq).
  unfold io_bind at 1. cbn [app].
  edestruct (write_rows env csvPath table Hrel) as (w' & -> & Hw');
    [cbn [cwd]; apply lookup_insert_eq|].
  exists w'. unfold io_bind, read_file, lift. cbn [content].
  rewrite Hw', <- encode_app, decode_encode. split; reflexivity.
Qed.

Lemma fits_forallb (rows : list (list str)) :
  forallb (forallb (fun f => (N.of_nat (length f) <=? field_limit)%N)) rows
  = true ->
  Forall (Forall fits) rows.
Proof.
  intros H. apply List.Forall_forall. intros row Hrow.
  apply List.Forall_forall. intros f Hf. unfold fits. apply N.leb_le.
  rewrite forallb_forall in H. specialize (H row Hrow).
  rewrite forallb_forall in H. now apply H.
Qed.




(** ** The download *)

Lemma print_run (o : output) (w : world) :
  print o w = (Return tt, record (Printed o) w).
Proof. reflexivity. Qed.

Lemma perform_failed (env : Env) ev change w e w' :
  perform env ev change w = (Raise e, w') -> w' = record (Failed ev e) w.
Proof.
  unfold perform. destruct (fails env (log w) ev); [now intros [= <- <-]|].
  destruct (change (cwd w)); [discriminate | now intros [= <- <-]].
Qed.

Lemma perform_done (env : Env) ev change w w' :
  perform env ev change w = (Return tt, w') ->
  change (cwd w) = Return (cwd w') /\ log w' = log w ++ [ev].
Proof.
  unfold perform. destruct (fails env (log w) ev); [discriminate|].
  destruct (change (cwd w)); [|discriminate]. now intros [= <-].
Qed.

(** C8.  A response whose status is not 200 makes [download] raise
    [RuntimeError] right after the request: the only trace is the
    request in the log, the directory tree is the one before the call,
    and so the destination is neither created nor changed. *)
Theorem bad_status_writes_nothing (env : Env) (remoteUrl : str)
    (localPath : path) (r : Response) (w : world) :
  requests_get env remoteUrl = Return r ->
  status_code r <> 200%Z ->
  download env remoteUrl localPath w
    = (Raise RuntimeError, record (Requested remoteUrl) w)
  /\ cwd (record (Requested remoteUrl) w) = cwd w
  /\ content (cwd (record (Requested remoteUrl) w)) localPath
     = content (cwd w) localPath.
Proof.
  intros Hget Hstatus. split; [|split; reflexivity].
  unfold download, io_bind, get. rewrite Hget.
  destruct (Z.eqb_spec (status_code r) 200); [contradiction|]. reflexivity.
Qed.

Lemma bad_status_writes_nothing_witness :
  download not_found NORTHWIND_URL NORTHWIND_PATH fresh_world
    = (Raise RuntimeError, record (Requested NORTHWIND_URL) fresh_world)
  /\ cwd (record (Requested NORTHWIND_URL) fresh_world) = cwd fresh_world
  /\ content (cwd (record (Requested NORTHWIND_URL) fresh_world)) NORTHWIND_PATH
     = content (cwd fresh_world) NORTHWIND_PATH.
Proof.
  apply (bad_status_writes_nothing not_found NORTHWIND_URL NORTHWIND_PATH
           {| status_code := 404; Content_Length := None; iter_content := [] |}).
  - reflexivity.
  - discriminate.
Defined.

(** *** The file stays in sight while the download runs *)

Lemma store_visible (fs fs' : gmap str node) (p : path) (data : bytes) :
  lookup_path fs p <> None -> store fs p data = Return fs' ->
  lookup_path fs' p <> None.
Proof.
  destruct p as [n|d n]; cbn [lookup_path store].
  - intros _. destruct (fs !! n) as [[|]|]; try discriminate;
      intros [= <-]; now rewrite lookup_insert_eq.
  - destruct (fs !! d) as [[|r wr x es]|]; try easy.
    destruct x; [|easy]. intros _ [= <-].
    rewrite lookup_insert_eq. cbn. now rewrite lookup_insert_eq.
Qed.

Lemma f_write_visible (env : Env) (p : path) (data : bytes) w res w' :
  f_write env p data w = (res, w') ->
  lookup_path (cwd w) p <> None -> lookup_path (cwd w') p <> None.
Proof.
  intros Hrun Hvis. destruct res as [[]|e].
  - apply perform_done in Hrun as [Hch _].
    destruct (content (cwd w) p); [|discriminate].
    eapply store_visible; eauto.
  - apply perform_failed in Hrun. now subst.
Qed.

Lemma write_chunks_visible (env : Env) (p : path) (n : Z)
    (chunks : list (result bytes)) :
  forall bytesRead w res w',
    write_chunks env p n bytesRead chunks w = (res, w') ->
    lookup_path (cwd w) p <> None -> lookup_path (cwd w') p <> None.
Proof.
  induction chunks as [|[chunk|e] chunks IH]; intros bytesRead w res w';
    cbn [write_chunks].
  - now intros [= _ <-].
  - unfold io_bind at 1.
    destruct (f_write env p chunk w) as [[[]|e] w1] eqn:Hw.
    + unfold io_bind at 1. rewrite print_run. intros Hrest Hvis.
      eapply IH; [exact Hrest|]. cbn [record cwd].
      eapply f_write_visible; eauto.
    + intros [= _ <-]. eapply f_write_visible; eauto.
  - now intros [= _ <-].
Qed.

Lemma download_body_visible (env : Env) (p : path) (n : Z) (r : Response)
    w res w' :
  download_body env p n r w = (res, w') ->
  lookup_path (cwd w) p <> None -> lookup_path (cwd w') p <> None.
Proof.
  unfold download_body. unfold io_bind at 1. rewrite print_run.
  unfold io_bind at 1.
  destruct (write_chunks env p n 0 (iter_content r) _) as [[[]|e] w1] eqn:Hw;
    intros Hrun Hvis.
  - rewrite print_run in Hrun. injection Hrun as _ <-. cbn [record cwd].
    eapply write_chunks_visible; eauto.
  - injection Hrun as _ <-. eapply write_chunks_visible; eauto.
Qed.

Lemma open_w_visible (env : Env) (p : path) w w' :
  open_w env p w = (Return tt, w') -> lookup_path (cwd w') p <> None.
Proof.
  intros Hrun. apply perform_done in Hrun as [Hch _].
  destruct p as [n|d n]; cbn [create store lookup_path] in *.
  - destruct (cwd w !! n) as [[|]|]; try discriminate;
      injection Hch as <-; now rewrite lookup_insert_eq.
  - destruct (cwd w !! d) as [[|r wr x es]|]; try discriminate.
    destruct x; [|discriminate].
    destruct (true && _); [|discriminate]. injection Hch as <-.
    rewrite lookup_insert_eq. cbn. now rewrite lookup_insert_eq.
Qed.

Lemma unlink_removes (env : Env) (p : path) w w' :
  unlink env p w = (Return tt, w') -> lookup_path (cwd w') p = None.
Proof.
  intros Hrun. apply perform_done in Hrun as [Hch _].
  destruct (content (cwd w) p); [|discriminate].
  destruct p as [n|d n]; cbn [lookup_path].
  - injection Hch as <-. apply lookup_delete_eq.
  - destruct (cwd w !! d) as [[|r wr x es]|]; try discriminate.
    destruct (wr && x); [|discriminate]. injection Hch as <-.
    rewrite lookup_insert_eq. destruct x; [|reflexivity].
    now rewrite lookup_delete_eq.
Qed.

(** The handler's inner [try]: what is left after it depends on
    [unlink] alone, and it never raises. *)
Lemma cleanup_run (env : Env) (p : path) (w : world) :
  lookup_path (cwd w) p <> None ->
  cleanup env p w =
  match unlink env p w with
  | (Return _, w') => (Return tt, w')
  | (Raise _, w') => (Return tt, record (Printed (warning p)) w')
  end.
Proof.
  intros Hvis. unfold cleanup, try_except, io_bind, path_exists.
  destruct (lookup_path (cwd w) p); [|congruence].
  destruct (unlink env p w) as [[[]|e] w'] eqn:Hu; reflexivity.
Qed.

(** C7.  Once the destination has been opened, any exception [e] raised
    by the body of the [with] statement (a chunk that cannot be read or
    written, an interrupt) reaches the caller as [e] itself, after the
    handler has tried to delete the file.  If [unlink] works, no file is
    left at the destination; if [unlink] raises, that exception is
    dropped, a warning is printed and the directory tree stays as it
    was. *)
Theorem failed_download_cleans_up (env : Env) (remoteUrl : str)
    (localPath : path) (r : Response) (contentLength : Z) (e : exn)
    (w w1 w2 : world) :
  requests_get env remoteUrl = Return r ->
  status_code r = 200%Z ->
  match Content_Length r with Some n => n | None => Return 0%Z end
    = Return contentLength ->
  open_w env localPath (record (Requested remoteUrl) w) = (Return tt, w1) ->
  download_body env localPath contentLength r w1 = (Raise e, w2) ->
  exists w3,
    download env remoteUrl localPath w = (Raise e, w3)
    /\ match unlink env localPath w2 with
       | (Return _, w') => w3 = w' /\ lookup_path (cwd w3) localPath = None
       | (Raise _, w') =>
           w3 = record (Printed (warning localPath)) w' /\ cwd w3 = cwd w2
       end.
Proof.
  intros Hget Hstatus Hlen Hopen Hbody.
  assert (Hvis : lookup_path (cwd w2) localPath <> None).
  { eapply download_body_visible; [exact Hbody|].
    eapply open_w_visible, Hopen. }
  unfold download, io_bind at 1, get. rewrite Hget, Hstatus. cbn [Z.eqb negb].
  rewrite Pos.eqb_refl. cbn [negb].
  unfold io_bind at 1, lift. rewrite Hlen.
  unfold try_except, io_bind at 1. rewrite Hopen, Hbody.
  unfold io_bind. rewrite (cleanup_run env localPath w2 Hvis).
  destruct (unlink env localPath w2) as [[[]|e'] w'] eqn:Hu.
  - exists w'. split; [reflexivity|]. split; [reflexivity|].
    eapply unlink_removes, Hu.
  - eexists. split; [reflexivity|]. split; [reflexivity|].
    apply perform_failed in Hu. now subst.
Qed.

Lemma failed_download_cleans_up_witness :
  exists w3,
    download broken_stream NORTHWIND_URL NORTHWIND_PATH fresh_world
      = (Raise ConnectionError, w3)
    /\ lookup_path (cwd w3) NORTHWIND_PATH = None.
Proof.
  destruct (failed_download_cleans_up broken_stream NORTHWIND_URL NORTHWIND_PATH
              {| status_code := 200;
                 Content_Length := Some (Return 4%Z);
                 iter_content := [Return [x53; x51]; Raise ConnectionError] |}
              4%Z ConnectionError fresh_world
              (snd (open_w broken_stream NORTHWIND_PATH
                      (record (Requested NORTHWIND_URL) fresh_world)))
              (snd (download_body broken_stream NORTHWIND_PATH 4%Z
                      {| status_code := 200;
                         Content_Length := Some (Return 4%Z);
                         iter_content := [Return [x53; x51];
                                          Raise ConnectionError] |}
                      (snd (open_w broken_stream NORTHWIND_PATH
                              (record (Requested NORTHWIND_URL) fresh_world)))))
              eq_refl eq_refl eq_refl)
    as (w3 & Hrun & Hleft).
  - vm_compute. reflexivity.
  - vm_compute. reflexivity.
  - exists w3. split; [exact Hrun|].
    destruct (unlink broken_stream NORTHWIND_PATH _) as [[[]|e'] w'] eqn:Hu.
    + apply Hleft.
    + vm_compute in Hu. discriminate.
Defined.

(** *** A download that completes leaves the file in its directory *)

Lemma f_write_under (env : Env) (d n : str) (data : bytes) (w w' : world)
    (r wr x : bool) (es : gmap str bytes) (old : bytes) :
  f_write env (Under d n) data w = (Return tt, w') ->
  cwd w !! d = Some (Dir r wr x es) -> es !! n = Some old ->
  exists es', cwd w' !! d = Some (Dir r wr x es')
              /\ es' !! n = Some (old ++ data).
Proof.
  intros Hrun Hd Hn. apply perform_done in Hrun as [Hch _].
  cbn [content store] in Hch. rewrite Hd in Hch. cbv beta iota in Hch.
  rewrite Hn in Hch. cbv beta iota in Hch. injection Hch as <-.
  exists (<[n := old ++ data]> es). now rewrite !lookup_insert_eq.
Qed.

Lemma write_chunks_under (env : Env) (d n : str) (len : Z)
    (chunks : list (result bytes)) r wr x :
  forall bytesRead w w' (es : gmap str bytes) (old : bytes),
    write_chunks env (Under d n) len bytesRead chunks w = (Return tt, w') ->
    cwd w !! d = Some (Dir r wr x es) -> es !! n = Some old ->
    exists (es' : gmap str bytes) (data : bytes),
      cwd w' !! d = Some (Dir r wr x es') /\ es' !! n = Some data.
Proof.
  induction chunks as [|[chunk|e] chunks IH]; intros bytesRead w w' es old;
    cbn [write_chunks].
  - intros [= <-] Hd Hn. now exists es, old.
  - unfold io_bind at 1.
    destruct (f_write env (Under d n) chunk w) as [[[]|e] w1] eqn:Hw;
      [|discriminate].
    unfold io_bind at 1. rewrite print_run. intros Hrest Hd Hn.
    destruct (f_write_under _ _ _ _ _ _ _ _ _ _ _ Hw Hd Hn) as (es1 & Hd1 & Hn1).
    eapply IH; [exact Hrest | exact Hd1 | exact Hn1].
  - discriminate.
Qed.

Lemma download_under (env : Env) (url d n : str) (w w' : world)
    (r wr x : bool) (es : gmap str bytes) :
  download env url (Under d n) w = (Return tt, w') ->
  cwd w !! d = Some (Dir r wr x es) ->
  exists (es' : gmap str bytes) (data : bytes),
    cwd w' !! d = Some (Dir r wr x es') /\ es' !! n = Some data.
Proof.
  unfold download, io_bind at 1, get.
  destruct (requests_get env url) as [resp|]; [|discriminate].
  destruct (negb _); [discriminate|].
  unfold io_bind at 1, lift.
  destruct (match Content_Length resp with Some v => v | None => Return 0%Z end)
    as [len|]; [|discriminate].
  unfold try_except, io_bind at 1.
  destruct (open_w env (Under d n) _) as [[[]|e] w1] eqn:Hopen.
  - unfold download_body, io_bind at 1. rewrite print_run. unfold io_bind at 1.
    destruct (write_chunks env (Under d n) len 0 (iter_content resp) _)
      as [[[]|e] w2] eqn:Hw.
    + rewrite print_run. intros [= <-] Hd.
      apply perform_done in Hopen as [Hch _].
      cbn [create store record cwd] in Hch. rewrite Hd in Hch.
      destruct (x && _); [|discriminate]. injection Hch as Hch.
      cbn [record cwd].
      eapply (write_chunks_under _ _ _ _ _ r wr x _ _ _
                (<[n := []]> es) []); [exact Hw| |].
      * cbn [record cwd]. rewrite <- Hch. apply lookup_insert_eq.
      * apply lookup_insert_eq.
    + unfold io_bind.
      destruct (cleanup env (Under d n) w2) as [[[]|?] ?]; discriminate.
  - unfold io_bind.
    destruct (cleanup env (Under d n) w1) as [[[]|?] ?]; discriminate.
Qed.

(** With the file in a directory that may be read, written and searched,
    [downloadNorthwind] does nothing at all. *)
Lemma downloadNorthwind_cached (env : Env) (w : world)
    (es : gmap str bytes) (data : bytes) :
  cwd w !! DOWNLOAD_DIR = Some (Dir true true true es) ->
  es !! NORTHWIND_DB = Some data ->
  downloadNorthwind env w = (Return tt, w).
Proof.
  intros Hd Hn.
  unfold downloadNorthwind, io_bind, path_exists, isdir, access_rwx, ret.
  cbn [lookup_path NORTHWIND_PATH join].
  repeat first [ progress cbn [negb andb option_map]
               | progress cbv beta iota
               | rewrite Hd | rewrite Hn ].
  reflexivity.
Qed.

(** C6.  If the database file is already at its place, a call of
    [downloadNorthwind] leaves the world as it is, log included: no
    request, no directory made, no file opened or written.  And after a
    call that returned normally, any further call returns normally
    without changing the world, so it does not download again. *)
Theorem fetch_idempotent (env : Env) (w : world) :
  (path_exists NORTHWIND_PATH w = (Return true, w) ->
   exists r, downloadNorthwind env w = (r, w))
  /\ (forall w',
        downloadNorthwind env w = (Return tt, w') ->
        forall env', downloadNorthwind env' w' = (Return tt, w')).
Proof.
  split.
  - unfold path_exists. cbn [lookup_path NORTHWIND_PATH join].
    destruct (cwd w !! DOWNLOAD_DIR) as [[|r wr x es]|] eqn:Hd;
      try discriminate.
    destruct x; [|discriminate].
    destruct (es !! NORTHWIND_DB) as [data|] eqn:Hn; [|discriminate].
    intros _.
    unfold downloadNorthwind, io_bind, path_exists, isdir, access_rwx, ret,
      raise.
    cbn [lookup_path NORTHWIND_PATH join].
    destruct r, wr;
      repeat first [ progress cbn [negb andb option_map]
                   | progress cbv beta iota
                   | rewrite Hd | rewrite Hn ];
      eexists; reflexivity.
  - intros w' Hrun env'. revert Hrun.
    unfold downloadNorthwind. unfold io_bind at 1. unfold io_bind at 1.
    unfold path_exists at 1. cbn [lookup_path].
    destruct (cwd w !! DOWNLOAD_DIR) as [[|r wr x es]|] eqn:Hd; cbn [negb].
    + unfold io_bind, isdir. rewrite Hd. discriminate.
    + unfold io_bind at 1, isdir at 1. rewrite Hd. cbn [negb].
      unfold io_bind at 1, access_rwx at 1. rewrite Hd.
      destruct r, wr, x; cbn [andb negb]; try discriminate.
      unfold ret at 1. unfold io_bind at 1, path_exists at 1.
      cbn [lookup_path NORTHWIND_PATH join]. rewrite Hd.
      destruct (es !! NORTHWIND_DB) as [data|] eqn:Hn; cbn [option_map negb].
      * intros [= <-]. eapply downloadNorthwind_cached; eauto.
      * intros Hdl.
        destruct (download_under _ _ _ _ _ _ _ _ _ _ Hdl Hd)
          as (es' & data & Hd' & Hn').
        eapply downloadNorthwind_cached; eauto.
    + destruct (mkdir env DOWNLOAD_DIR w) as [[[]|e] w1] eqn:Hmk;
        [|discriminate].
      apply perform_done in Hmk as [Hch _]. rewrite Hd in Hch.
      injection Hch as Hch.
      assert (Hd1 : cwd w1 !! DOWNLOAD_DIR = Some (Dir true true true ∅))
        by (rewrite <- Hch; apply lookup_insert_eq).
      unfold io_bind at 1, path_exists at 1.
      cbn [lookup_path NORTHWIND_PATH join]. rewrite Hd1.
      rewrite lookup_empty. cbn [option_map negb]. intros Hdl.
      destruct (download_under _ _ _ _ _ _ _ _ _ _ Hdl Hd1)
        as (es' & data & Hd' & Hn').
      eapply downloadNorthwind_cached; eauto.
Qed.

Lemma fetch_idempotent_witness :
  exists r, downloadNorthwind not_found cached_world = (r, cached_world).
Proof.
  apply (fetch_idempotent not_found cached_world). vm_compute. reflexivity.
Defined.

(** ** The driver *)

Lemma conversions_app (a b : list event) :
  conversions (a ++ b) = conversions a ++ conversions b.
Proof. apply flat_map_app. Qed.



Lemma files_kept_same_cwd (w w' : world) : cwd w' = cwd w -> files_kept w w'.
Proof. intros E p data H. exists data. now rewrite E. Qed.



Lemma quiet_print (o : output) : quiet (print o).
Proof.
  intros w res w' [= _ <-]. cbn [record log]. split.
  - rewrite conversions_app. cbn. apply app_nil_r.
  - now apply files_kept_same_cwd.
Qed.











(** ** Further properties of the download *)

(** Reduce a run whose tests are decided by the equations at hand. *)
Ltac io_run_with tac :=
  repeat first [ progress cbn [negb andb option_map]
               | progress cbv beta iota
               | tac ].

(** X1.  When [download] exists and is not a directory,
    [downloadNorthwind] raises [RuntimeError] and does nothing else. *)
Theorem downloadNorthwind_not_a_directory (env : Env) (w : world)
    (data : bytes) :
  cwd w !! DOWNLOAD_DIR = Some (File data) ->
  downloadNorthwind env w = (Raise RuntimeError, w).
Proof.
  intros Hd. unfold downloadNorthwind, io_bind, path_exists, isdir.
  cbn [lookup_path]. io_run_with ltac:(rewrite Hd). reflexivity.
Qed.

Lemma downloadNorthwind_not_a_directory_witness :
  downloadNorthwind online blocked_world = (Raise RuntimeError, blocked_world).
Proof.
  apply (downloadNorthwind_not_a_directory online blocked_world []).
  reflexivity.
Defined.

(** X2.  When the directory lacks read, write or search permission,
    [downloadNorthwind] raises [RuntimeError] and does nothing else,
    also when the database file is already in the directory. *)
Theorem downloadNorthwind_no_access (env : Env) (w : world)
    (r wr x : bool) (entries : gmap str bytes) :
  cwd w !! DOWNLOAD_DIR = Some (Dir r wr x entries) ->
  r && wr && x = false ->
  downloadNorthwind env w = (Raise RuntimeError, w).
Proof.
  intros Hd Hperm.
  unfold downloadNorthwind, io_bind, path_exists, isdir, access_rwx.
  cbn [lookup_path]. io_run_with ltac:(first [rewrite Hd | rewrite Hperm]).
  reflexivity.
Qed.

Lemma downloadNorthwind_no_access_witness :
  downloadNorthwind online readonly_world = (Raise RuntimeError, readonly_world).
Proof.
  apply (downloadNorthwind_no_access online readonly_world true false true
           {[ NORTHWIND_DB := [x53; x51] ]}).
  - reflexivity.
  - reflexivity.
Defined.

(** X3.  When there is no [download] yet, the directory is made first,
    empty and with all permissions, and the download then starts from
    that world; if making it fails, the exception is passed on and
    nothing is requested. *)
Theorem downloadNorthwind_makes_directory (env : Env) (w : world) :
  cwd w !! DOWNLOAD_DIR = None ->
  downloadNorthwind env w =
  match fails env (log w) (MadeDir DOWNLOAD_DIR) with
  | Some e => (Raise e, record (Failed (MadeDir DOWNLOAD_DIR) e) w)
  | None =>
      download env NORTHWIND_URL NORTHWIND_PATH
        {| cwd := <[DOWNLOAD_DIR := Dir true true true ∅]> (cwd w);
           log := log w ++ [MadeDir DOWNLOAD_DIR] |}
  end.
Proof.
  intros Hd. unfold downloadNorthwind. unfold io_bind at 1. unfold io_bind at 1.
  unfold path_exists at 1. cbn [lookup_path]. rewrite Hd. cbn [negb].
  unfold mkdir, perform.
  destruct (fails env (log w) (MadeDir DOWNLOAD_DIR)) as [e|]; [reflexivity|].
  rewrite Hd. unfold io_bind, path_exists.
  cbn [lookup_path NORTHWIND_PATH join cwd]. rewrite lookup_insert_eq.
  rewrite lookup_empty. reflexivity.
Qed.

Lemma downloadNorthwind_makes_directory_witness :
  downloadNorthwind online empty_world =
  download online NORTHWIND_URL NORTHWIND_PATH
    {| cwd := <[DOWNLOAD_DIR := Dir true true true ∅]> (cwd empty_world);
       log := log empty_world ++ [MadeDir DOWNLOAD_DIR] |}.
Proof.
  apply (downloadNorthwind_makes_directory online empty_world).
  reflexivity.
Defined.

Lemma store_content (fs fs' : gmap str node) (p : path) (data : bytes) :
  store fs p data = Return fs' -> content fs' p = Some data.
Proof.
  destruct p as [n|d n]; cbn [store content].
  - destruct (fs !! n) as [[|]|]; try discriminate;
      intros [= <-]; now rewrite lookup_insert_eq.
  - destruct (fs !! d) as [[|r wr x es]|]; try discriminate.
    intros [= <-]. rewrite lookup_insert_eq. apply lookup_insert_eq.
Qed.

Lemma create_content (fs fs' : gmap str node) (p : path) :
  create fs p = Return fs' -> content fs' p = Some [].
Proof.
  destruct p as [n|d n]; cbn [create]; [apply store_content|].
  destruct (fs !! d) as [[|r wr x es]|] eqn:Hd; try discriminate.
  destruct (x && _); [|discriminate]. apply store_content.
Qed.

Lemma store_total (fs : gmap str node) (p : path) (old data : bytes) :
  content fs p = Some old -> exists fs', store fs p data = Return fs'.
Proof.
  destruct p as [n|d n]; cbn [store content].
  - destruct (fs !! n) as [[|]|]; try discriminate. now eexists.
  - destruct (fs !! d) as [[|r wr x es]|]; try discriminate. now eexists.
Qed.

Lemma f_write_done (env : Env) (p : path) (data : bytes) (w w' : world) :
  f_write env p data w = (Return tt, w') ->
  exists old : bytes,
    content (cwd w) p = Some old
    /\ content (cwd w') p = Some (old ++ data)
    /\ log w' = log w ++ [Wrote p data].
Proof.
  intros Hrun. apply perform_done in Hrun as [Hch Hlog].
  destruct (content (cwd w) p) as [old|]; [|discriminate].
  exists old. split; [reflexivity|]. split; [|exact Hlog].
  eapply store_content, Hch.
Qed.

Lemma progress_counts_app (a b : list event) :
  progress_counts (a ++ b) = progress_counts a ++ progress_counts b.
Proof. apply flat_map_app. Qed.

(** The loop over the chunks, when it ends normally: every item of the
    stream was a chunk, the file has grown by all of them, and each
    progress line reported the bytes read so far. *)
Lemma write_chunks_done (env : Env) (p : path) (n : Z)
    (items : list (result bytes)) :
  forall (bytesRead : Z) (w w' : world) (old : bytes),
    write_chunks env p n bytesRead items w = (Return tt, w') ->
    content (cwd w) p = Some old ->
    exists chunks : list bytes,
      items = map Return chunks
      /\ content (cwd w') p = Some (old ++ concat chunks)
      /\ progress_counts (log w')
         = progress_counts (log w) ++ running_totals bytesRead chunks.
Proof.
  induction items as [|[chunk|e] items IH]; intros bytesRead w w' old;
    cbn [write_chunks].
  - intros [= <-] Hold. exists []. cbn. now rewrite !app_nil_r.
  - unfold io_bind at 1.
    destruct (f_write env p chunk w) as [[[]|e] w1] eqn:Hw; [|discriminate].
    unfold io_bind at 1. rewrite print_run. intros Hrest Hold.
    destruct (f_write_done _ _ _ _ _ Hw) as (old' & Hold' & Hnew & Hlog).
    assert (old' = old) by congruence. subst old'.
    destruct (IH _ _ _ (old ++ chunk) Hrest Hnew)
      as (chunks & -> & Hcontent & Hprogress).
    exists (chunk :: chunks). split; [reflexivity|]. split.
    + rewrite Hcontent. cbn [concat]. now rewrite app_assoc.
    + rewrite Hprogress. cbn [record log running_totals].
      rewrite Hlog, !progress_counts_app. cbn. rewrite !app_nil_r.
      now rewrite <- app_assoc.
  - discriminate.
Qed.

(** What a normal return of [download] means. *)
Lemma download_returns (env : Env) (url : str) (p : path) (w w' : world) :
  download env url p w = (Return tt, w') ->
  exists (r : Response) (chunks : list bytes),
    requests_get env url = Return r
    /\ status_code r = 200%Z
    /\ iter_content r = map Return chunks
    /\ content (cwd w') p = Some (concat chunks)
    /\ progress_counts (log w')
       = progress_counts (log w) ++ running_totals 0 chunks.
Proof.
  unfold download, io_bind at 1, get.
  destruct (requests_get env url) as [r|]; [|discriminate].
  destruct (Z.eqb_spec (status_code r) 200) as [Hs|]; [|discriminate].
  cbn [negb]. unfold io_bind at 1, lift.
  destruct (match Content_Length r with Some v => v | None => Return 0%Z end)
    as [len|]; [|discriminate].
  unfold try_except, io_bind at 1.
  destruct (open_w env p _) as [[[]|e] w1] eqn:Hopen.
  - unfold download_body, io_bind at 1. rewrite print_run. unfold io_bind at 1.
    destruct (write_chunks env p len 0 (iter_content r) _)
      as [[[]|e] w2] eqn:Hw.
    + rewrite print_run. intros [= <-].
      apply perform_done in Hopen as [Hch Hlog].
      apply create_content in Hch.
      destruct (write_chunks_done _ _ _ _ _ _ _ [] Hw Hch)
        as (chunks & Hitems & Hcontent & Hprogress).
      exists r, chunks. repeat split; auto.
      cbn [record log cwd] in *. rewrite progress_counts_app, Hprogress.
      rewrite progress_counts_app, Hlog, !progress_counts_app. cbn.
      now rewrite !app_nil_r.
    + unfold io_bind.
      destruct (cleanup env p w2) as [[[]|?] ?]; discriminate.
  - unfold io_bind.
    destruct (cleanup env p w1) as [[[]|?] ?]; discriminate.
Qed.

(** X4.  When [download] returns normally, the response had status 200,
    every step of its stream gave a chunk, and the destination file
    holds exactly these chunks, one after the other, whatever was there
    before. *)
Theorem download_stores_the_stream (env : Env) (remoteUrl : str)
    (localPath : path) (w w' : world) :
  download env remoteUrl localPath w = (Return tt, w') ->
  exists (r : Response) (chunks : list bytes),
    requests_get env remoteUrl = Return r
    /\ status_code r = 200%Z
    /\ iter_content r = map Return chunks
    /\ content (cwd w') localPath = Some (concat chunks).
Proof.
  intros Hrun.
  destruct (download_returns env remoteUrl localPath w w' Hrun)
    as (r & chunks & Hget & Hs & Hitems & Hcontent & _).
  now exists r, chunks.
Qed.

Lemma download_stores_the_stream_witness :
  exists (r : Response) (chunks : list bytes),
    requests_get online NORTHWIND_URL = Return r
    /\ status_code r = 200%Z
    /\ iter_content r = map Return chunks
    /\ content
         (cwd (snd (download online NORTHWIND_URL NORTHWIND_PATH cached_world)))
         NORTHWIND_PATH = Some (concat chunks).
Proof.
  apply (download_stores_the_stream online NORTHWIND_URL NORTHWIND_PATH
           cached_world).
  vm_compute. reflexivity.
Defined.






Lemma write_chunks_reliable (env : Env) (p : path) (n : Z)
    (chunks : list bytes) :
  reliable env ->
  forall (bytesRead : Z) (w : world) (old : bytes),
    content (cwd w) p = Some old ->
    exists w', write_chunks env p n bytesRead (map Return chunks) w
               = (Return tt, w').
Proof.
  intros Hrel. induction chunks as [|chunk chunks IH]; intros bytesRead w old Hold.
  - now exists w.
  - cbn [map write_chunks]. unfold io_bind at 1.
    destruct (store_total (cwd w) p old (old ++ chunk) Hold) as [fs' Hst].
    assert (Hw : f_write env p chunk w
                 = (Return tt, {| cwd := fs'; log := log w ++ [Wrote p chunk] |})).
    { unfold f_write. apply perform_ok; [exact Hrel|]. now rewrite Hold. }
    rewrite Hw. unfold io_bind at 1. rewrite print_run.
    apply (IH _ _ (old ++ chunk)). cbn [record cwd].
    eapply store_content, Hst.
Qed.

(** X6.  With working file operations, a response of status 200 whose
    stream gives chunks only, and a destination that can be opened,
    [download] returns normally and the file holds the chunks. *)
Theorem download_completes (env : Env) (remoteUrl : str) (localPath : path)
    (r : Response) (contentLength : Z) (chunks : list bytes)
    (fs : gmap str node) (w : world) :
  reliable env ->
  requests_get env remoteUrl = Return r ->
  status_code r = 200%Z ->
  match Content_Length r with Some n => n | None => Return 0%Z end
    = Return contentLength ->
  iter_content r = map Return chunks ->
  create (cwd w) localPath = Return fs ->
  exists w',
    download env remoteUrl localPath w = (Return tt, w')
    /\ content (cwd w') localPath = Some (concat chunks).
Proof.
  intros Hrel Hget Hs Hlen Hitems Hcreate.
  assert (Hrun : exists w', download env remoteUrl localPath w = (Return tt, w')).
  { unfold download, io_bind at 1, get. rewrite Hget, Hs.
    cbn [Z.eqb]. rewrite Pos.eqb_refl. cbn [negb].
    unfold io_bind at 1, lift. rewrite Hlen.
    unfold try_except, io_bind at 1.
    assert (Hopen : open_w env localPath (record (Requested remoteUrl) w)
                    = (Return tt, {| cwd := fs;
                                     log := log (record (Requested remoteUrl) w)
                                            ++ [Opened localPath] |}))
      by (apply perform_ok; auto).
    rewrite Hopen. unfold download_body, io_bind at 1. rewrite print_run.
    unfold io_bind at 1. rewrite Hitems.
    edestruct (write_chunks_reliable env localPath contentLength chunks Hrel)
      as [w2 ->].
    - cbn [record cwd]. eapply create_content, Hcreate.
    - rewrite print_run. now eexists. }
  destruct Hrun as [w' Hrun]. exists w'. split; [exact Hrun|].
  destruct (download_returns _ _ _ _ _ Hrun)
    as (r' & chunks' & Hget' & _ & Hitems' & Hcontent & _).
  assert (r' = r) by congruence. subst r'.
  assert (chunks' = chunks).
  { rewrite Hitems in Hitems'. clear -Hitems'. revert chunks' Hitems'.
    induction chunks as [|c cs IH]; intros [|c' cs']; cbn; try discriminate;
      [reflexivity|].
    intros [= -> H]. now rewrite (IH cs'). }
  now subst chunks'.
Qed.

Lemma download_completes_witness :
  exists w',
    download online NORTHWIND_URL NORTHWIND_PATH fresh_world = (Return tt, w')
    /\ content (cwd w') NORTHWIND_PATH
       = Some (concat [[x53; x51; x4c]; [x69; x74]]).
Proof.
  apply (download_completes online NORTHWIND_URL NORTHWIND_PATH two_chunks 5%Z
           [[x53; x51; x4c]; [x69; x74]]
           (<[DOWNLOAD_DIR := Dir true true true {[ NORTHWIND_DB := [] ]}]>
              (cwd fresh_world))).
  - intros history ev. reflexivity.
  - reflexivity.
  - reflexivity.
  - reflexivity.
  - reflexivity.
  - vm_compute. reflexivity.
Defined.

(** X7.  What goes wrong before the [try] statement is passed on with no
    cleanup: if the request raises, or if [int] rejects the
    Content-Length header of a response with status 200, [download]
    raises that exception right after the request, and the directory
    tree, with any file already at the destination, stays as it was. *)
Theorem download_fails_before_try (env : Env) (remoteUrl : str)
    (localPath : path) (w : world) :
  (forall e,
     requests_get env remoteUrl = Raise e ->
     download env remoteUrl localPath w
     = (Raise e, record (Requested remoteUrl) w))
  /\ (forall r e,
        requests_get env remoteUrl = Return r ->
        status_code r = 200%Z ->
        Content_Length r = Some (Raise e) ->
        download env remoteUrl localPath w
        = (Raise e, record (Requested remoteUrl) w))
  /\ cwd (record (Requested remoteUrl) w) = cwd w.
Proof.
  split; [|split; [|reflexivity]].
  - intros e Hget. unfold download, io_bind, get. now rewrite Hget.
  - intros r e Hget Hs Hlen. unfold download, io_bind at 1, get.
    rewrite Hget, Hs. cbn [Z.eqb]. rewrite Pos.eqb_refl. cbn [negb].
    unfold io_bind, lift. now rewrite Hlen.
Qed.

(** X8.  If the destination cannot be opened, the exception of [open]
    is passed on.  The handler runs all the same: a file that was
    already at the destination is deleted (or, if that fails, the
    warning is printed), and if there was none nothing is deleted. *)
Theorem open_failure_runs_cleanup (env : Env) (remoteUrl : str)
    (localPath : path) (r : Response) (contentLength : Z) (e : exn)
    (w w1 : world) :
  requests_get env remoteUrl = Return r ->
  status_code r = 200%Z ->
  match Content_Length r with Some n => n | None => Return 0%Z end
    = Return contentLength ->
  open_w env localPath (record (Requested remoteUrl) w) = (Raise e, w1) ->
  exists w3,
    download env remoteUrl localPath w = (Raise e, w3)
    /\ match lookup_path (cwd w) localPath with
       | None => w3 = w1 /\ cwd w3 = cwd w
       | Some _ =>
           match unlink env localPath w1 with
           | (Return _, w') =>
               w3 = w' /\ lookup_path (cwd w3) localPath = None
           | (Raise _, w') =>
               w3 = record (Printed (warning localPath)) w' /\ cwd w3 = cwd w
           end
       end.
Proof.
  intros Hget Hs Hlen Hopen.
  pose proof (perform_failed _ _ _ _ _ _ Hopen) as Hw1.
  assert (Hcwd : cwd w1 = cwd w) by (subst w1; reflexivity).
  unfold download, io_bind at 1, get. rewrite Hget, Hs.
  cbn [Z.eqb]. rewrite Pos.eqb_refl. cbn [negb].
  unfold io_bind at 1, lift. rewrite Hlen.
  unfold try_except, io_bind at 1. rewrite Hopen.
  unfold io_bind.
  destruct (lookup_path (cwd w) localPath) as [nd|] eqn:Hvis.
  - rewrite cleanup_run by (rewrite Hcwd; congruence).
    destruct (unlink env localPath w1) as [[[]|e'] w'] eqn:Hu.
    + exists w'. split; [reflexivity|]. split; [reflexivity|].
      eapply unlink_removes, Hu.
    + eexists. split; [reflexivity|]. split; [reflexivity|].
      apply perform_failed in Hu. subst w'. exact Hcwd.
  - exists w1. split; [|auto].
    unfold cleanup, try_except, io_bind, path_exists. rewrite Hcwd, Hvis.
    reflexivity.
Qed.

Lemma open_failure_runs_cleanup_witness :
  exists w3,
    download locked NORTHWIND_URL NORTHWIND_PATH cached_world
      = (Raise OSError, w3)
    /\ lookup_path (cwd w3) NORTHWIND_PATH = None.
Proof.
  destruct (open_failure_runs_cleanup locked NORTHWIND_URL NORTHWIND_PATH
              two_chunks 5%Z OSError cached_world
              (snd (open_w locked NORTHWIND_PATH
                      (record (Requested NORTHWIND_URL) cached_world)))
              eq_refl eq_refl eq_refl)
    as (w3 & Hrun & Hleft).
  - vm_compute. reflexivity.
  - exists w3. split; [exact Hrun|].
    assert (Hvis : lookup_path (cwd cached_world) NORTHWIND_PATH
                   = Some (File [x53; x51])) by (vm_compute; reflexivity).
    rewrite Hvis in Hleft.
    destruct (unlink locked NORTHWIND_PATH _) as [[[]|e'] w'] eqn:Hu.
    + apply Hleft.
    + vm_compute in Hu. discriminate.
Defined.




(** *** Requests *)

















(** ** Further properties of [convertTable] *)

Lemma convertTable_rows_raise null blobs (env : Env) conn tableName csvPath
    keep e w :
  convertTable_rows null blobs conn tableName keep = Raise e ->
  convertTable null blobs env conn tableName csvPath keep w
  = (Raise e, record (Converted tableName csvPath keep) w).
Proof.
  intros Hrows. unfold convertTable, io_bind, lift. now rewrite Hrows.
Qed.

Lemma index_of_None (x : str) (l : list str) :
  ~ In x l -> index_of eqb_str x l = None.
Proof.
  induction l as [|y l IH]; intros Hnot; cbn [index_of]; [reflexivity|].
  destruct (eqb_str y x) eqn:E.
  - apply eqb_str_eq in E. destruct Hnot. now left.
  - rewrite IH; [reflexivity|]. intros Hin. apply Hnot. now right.
Qed.



(** X12.  A table of the blob registry whose header does not have the
    registered column: [header.index] of line 87 raises [ValueError],
    with blobs dropped as well as with blobs kept, and no file is
    opened. *)
Theorem convertTable_missing_blob_column (null : str)
    (blobs : list (str * str)) (env : Env) (conn : Connection)
    (tableName csvPath column : str) (cur : table) (keep : bool) (w : world) :
  dict_get conn tableName = Some cur ->
  dict_get blobs tableName = Some column ->
  ~ In column (description cur) ->
  convertTable null blobs env conn tableName csvPath keep w
  = (Raise ValueError, record (Converted tableName csvPath keep) w).
Proof.
  intros Hcur Hcol Hnot. apply convertTable_rows_raise.
  unfold convertTable_rows, execute_select. rewrite Hcur.
  cbn [bind]. unfold find_blobColumn. rewrite Hcol.
  unfold list_index. now rewrite (index_of_None _ _ Hnot).
Qed.

Lemma convertTable_missing_blob_column_witness :
  convertTable NULL_CONVERT BLOBS offline
    [("Categories"%string : str, Categories_plain)]
    ("Categories"%string : str) ("categories.csv"%string : str) false
    empty_world
  = (Raise ValueError,
     record (Converted ("Categories"%string : str)
               ("categories.csv"%string : str) false) empty_world).
Proof.
  apply (convertTable_missing_blob_column NULL_CONVERT BLOBS offline
           [("Categories"%string : str, Categories_plain)]
           ("Categories"%string : str) ("categories.csv"%string : str)
           ("Picture"%string : str) Categories_plain false empty_world).
  - reflexivity.
  - reflexivity.
  - cbn. intros [H | [H | []]]; discriminate.
Defined.

(** X13.  A table with no rows.  No row is there to encode, so the
    conversion does not depend on what the blob column holds; the file
    gets the header line and nothing else, and the read-back passes. *)
Theorem convertTable_empty_table (null : str) (blobs : list (str * str))
    (env : Env) (conn : Connection) (tableName csvPath : str) (cur : table)
    (blobColumn : option nat) (keep : bool) (w : world) :
  dict_get conn tableName = Some cur ->
  fetchall cur = [] ->
  find_blobColumn blobs tableName (description cur) = Return blobColumn ->
  Forall fits (description cur) ->
  reliable env ->
  isdir csvPath w = (Return false, w) ->
  exists w',
    convertTable null blobs env conn tableName csvPath keep w = (Return tt, w')
    /\ content (cwd w') (Here csvPath)
       = Some (encode (writerow (drop_blob_name blobColumn keep (description cur)))).
Proof.
  intros Hcur Hempty Hcol Hfit Hrel Hd.
  set (header := drop_blob_name blobColumn keep (description cur)).
  assert (Hrows : convertTable_rows null blobs conn tableName keep
                  = Return (header, [])).
  { unfold convertTable_rows, execute_select. rewrite Hcur. cbn [bind].
    rewrite Hcol. cbn [bind]. rewrite Hempty.
    unfold filterRows. now destruct blobColumn as [k|], keep. }
  assert (Hfit' : Forall fits header).
  { unfold header, drop_blob_name.
    destruct blobColumn as [k|]; [|exact Hfit].
    destruct (negb keep); [|exact Hfit].
    clear -Hfit. revert k. induction Hfit as [|f l Hf Hl IH]; intros k.
    - destruct k; constructor.
    - destruct k as [|k]; cbn [del_item]; [exact Hl|].
      constructor; [exact Hf | apply IH]. }
  destruct (convertTable_run null blobs env conn tableName csvPath keep
              header [] w Hrows Hrel Hd) as (w' & Hrun & Hcontent).
  exists w'. split.
  - rewrite Hrun. f_equal. apply check_readback_written. now constructor.
  - rewrite Hcontent. unfold writerows. cbn [flat_map]. now rewrite app_nil_r.
Qed.

Lemma convertTable_empty_table_witness :
  exists w',
    convertTable NULL_CONVERT BLOBS offline
      [("Categories"%string : str, Categories_empty)]
      ("Categories"%string : str) ("categories_base64.csv"%string : str) true
      empty_world = (Return tt, w')
    /\ content (cwd w') (Here ("categories_base64.csv"%string : str))
       = Some (encode (writerow (drop_blob_name (Some 3) true
                                   (description Categories_empty)))).
Proof.
  apply (convertTable_empty_table NULL_CONVERT BLOBS offline
           [("Categories"%string : str, Categories_empty)]
           ("Categories"%string : str) ("categories_base64.csv"%string : str)
           Categories_empty (Some 3) true empty_world).
  - reflexivity.
  - reflexivity.
  - reflexivity.
  - repeat constructor; unfold fits; vm_compute; discriminate.
  - intros history ev. reflexivity.
  - reflexivity.
Defined.

(** A normal return of [convertTable] has computed the rows and has
    checked what the file holds at the end. *)
Lemma convertTable_checked null blobs (env : Env) conn tableName csvPath keep
    (w w' : world) :
  convertTable null blobs env conn tableName csvPath keep w = (Return tt, w') ->
  exists header table (data : bytes),
    convertTable_rows null blobs conn tableName keep = Return (header, table)
    /\ cwd w' !! csvPath = Some (File data)
    /\ check_readback header table (decode data) = Return tt.
Proof.
  unfold convertTable. unfold io_bind at 1. unfold io_bind at 1, lift at 1.
  destruct (convertTable_rows null blobs conn tableName keep)
    as [[header table]|e]; [|discriminate].
  unfold io_bind at 1.
  destruct (open_w env (Here csvPath) _) as [[[]|e] w1]; [|discriminate].
  unfold io_bind at 1.
  destruct (f_write env (Here csvPath) _ w1) as [[[]|e] w2]; [|discriminate].
  unfold io_bind at 1.
  destruct (for_each table _ w2) as [[[]|e] w3]; [|discriminate].
  unfold io_bind, read_file, lift. cbn [content].
  destruct (cwd w3 !! csvPath) as [[data|]|] eqn:Hfile; try discriminate.
  intros [= Hcheck <-]. now exists header, table, data.
Qed.

(** X14.  What a normal return of [convertTable] guarantees, whatever
    the file operations did: the rows were computed, the file at
    [csvPath] is there, and the reader applied to what the file holds
    yields the computed header and then rows that agree, index by index,
    with the computed table. *)
Theorem convertTable_postcondition (null : str) (blobs : list (str * str))
    (env : Env) (conn : Connection) (tableName csvPath : str) (keep : bool)
    (w w' : world) :
  convertTable null blobs env conn tableName csvPath keep w = (Return tt, w') ->
  exists header table (data : bytes) rows,
    convertTable_rows null blobs conn tableName keep = Return (header, table)
    /\ cwd w' !! csvPath = Some (File data)
    /\ csv_reader (readlines (decode data)) = (header :: rows, None)
    /\ forall j row, nth_error rows j = Some row -> nth_error table j = Some row.
Proof.
  intros Hrun.
  destruct (convertTable_checked _ _ _ _ _ _ _ _ _ Hrun)
    as (header & table & data & Hrows & Hfile & Hcheck).
  apply check_readback_iff in Hcheck as (rows & Hread & Hagree).
  now exists header, table, data, rows.
Qed.

Lemma convertTable_postcondition_witness :
  exists header table (data : bytes) rows,
    convertTable_rows NULL_CONVERT BLOBS sample_db ("Region"%string : str) false
    = Return (header, table)
    /\ cwd (snd (convertTable NULL_CONVERT BLOBS offline sample_db
                   ("Region"%string : str) ("region.csv"%string : str) false
                   empty_world))
       !! ("region.csv"%string : str) = Some (File data)
    /\ csv_reader (readlines (decode data)) = (header :: rows, None)
    /\ forall j row, nth_error rows j = Some row -> nth_error table j = Some row.
Proof.
  apply (convertTable_postcondition NULL_CONVERT BLOBS offline sample_db
           ("Region"%string : str) ("region.csv"%string : str) false
           empty_world).
  vm_compute. reflexivity.
Defined.

(** *** Which entries of the working directory change *)

















(** ** Further properties of the read-back check *)

Lemma check_rows_first_mismatch (table : list (list str)) :
  forall rows i stop j row,
    nth_error rows j = Some row ->
    (forall k r, (k < j)%nat -> nth_error rows k = Some r ->
                 nth_error table (i + k) = Some r) ->
    nth_error table (i + j) <> Some row ->
    check_rows table i rows stop
    = Raise (if (i + j <? length table)%nat then AssertionError else IndexError).
Proof.
  induction rows as [|r0 rows IH]; intros i stop j row Hj Hbefore Hdiff.
  - destruct j; discriminate.
  - destruct j as [|j]; cbn [check_rows].
    + injection Hj as ->. rewrite Nat.add_0_r in *.
      destruct (nth_error table i) as [expected|] eqn:Hi.
      * assert (Hlt : (i < length table)%nat)
          by (apply nth_error_Some; congruence).
        apply Nat.ltb_lt in Hlt. rewrite Hlt.
        destruct (eqb_row expected row) eqn:E; [|reflexivity].
        apply eqb_row_eq in E. congruence.
      * apply nth_error_None in Hi.
        assert (Hge : (i <? length table)%nat = false)
          by (apply Nat.ltb_ge; exact Hi).
        now rewrite Hge.
    + pose proof (Hbefore 0%nat r0 (Nat.lt_0_succ j) eq_refl) as H0.
      rewrite Nat.add_0_r in H0. rewrite H0.
      assert (E : eqb_row r0 r0 = true) by now apply eqb_row_eq.
      rewrite E. rewrite <- Nat.add_succ_comm.
      apply (IH (S i) stop j row Hj).
      * intros k r Hk Hr. rewrite Nat.add_succ_comm.
        apply Hbefore; [lia | exact Hr].
      * now rewrite Nat.add_succ_comm.
Qed.

Lemma check_rows_agree (table : list (list str)) :
  forall rows i stop,
    (forall j row, nth_error rows j = Some row ->
                   nth_error table (i + j) = Some row) ->
    check_rows table i rows stop
    = match stop with Some e => Raise e | None => Return tt end.
Proof.
  induction rows as [|r0 rows IH]; intros i stop Hall; cbn [check_rows].
  - reflexivity.
  - pose proof (Hall 0%nat r0 eq_refl) as H0. rewrite Nat.add_0_r in H0.
    rewrite H0.
    assert (E : eqb_row r0 r0 = true) by now apply eqb_row_eq.
    rewrite E. apply IH. intros j row Hj. rewrite Nat.add_succ_comm.
    now apply Hall.
Qed.

(** X17.  How the read-back of lines 121 to 131 fails.  On an empty file
    [next(reader)] raises [StopIteration].  When the reader yields a
    first record: a record other than the header fails the first
    [assert]; otherwise the first row that is not the row of the table
    at its index fails the second [assert] if the table has a row at
    that index, and raises [IndexError] from [table[i]] if the file has
    more rows than the table; and when every row agrees, the check ends
    as the reader ended. *)
Theorem readback_failures (header : list str) (table : list (list str))
    (text : str) :
  (text = [] -> check_readback header table text = Raise StopIteration)
  /\ forall header2 rows stop,
       csv_reader (readlines text) = (header2 :: rows, stop) ->
       (header2 <> header ->
        check_readback header table text = Raise AssertionError)
       /\ (header2 = header ->
           forall j row,
             nth_error rows j = Some row ->
             (forall k r, (k < j)%nat -> nth_error rows k = Some r ->
                          nth_error table k = Some r) ->
             nth_error table j <> Some row ->
             check_readback header table text
             = Raise (if (j <? length table)%nat then AssertionError
                      else IndexError))
       /\ (header2 = header ->
           (forall j row, nth_error rows j = Some row ->
                          nth_error table j = Some row) ->
           check_readback header table text
           = match stop with Some e => Raise e | None => Return tt end).
Proof.
  split; [now intros -> |].
  intros header2 rows stop Hread. unfold check_readback. rewrite Hread.
  split; [|split].
  - intros Hne. destruct (eqb_row header header2) eqn:E; [|reflexivity].
    apply eqb_row_eq in E. congruence.
  - intros -> j row Hj Hbefore Hdiff.
    assert (E : eqb_row header header = true) by now apply eqb_row_eq.
    rewrite E.
    exact (check_rows_first_mismatch table rows 0 stop j row Hj Hbefore Hdiff).
  - intros -> Hall.
    assert (E : eqb_row header header = true) by now apply eqb_row_eq.
    rewrite E. apply check_rows_agree. exact Hall.
Qed.

Lemma firstn_nth_error {A} (l : list A) :
  forall k j a, nth_error (firstn k l) j = Some a -> nth_error l j = Some a.
Proof.
  induction l as [|x l IH]; intros k j a.
  - now rewrite firstn_nil.
  - destruct k as [|k]; [destruct j; discriminate|].
    destruct j as [|j]; cbn; [auto | apply IH].
Qed.

Lemma Forall_firstn {A} (P : A -> Prop) (l : list A) (k : nat) :
  Forall P l -> Forall P (firstn k l).
Proof.
  intros H. revert k. induction H as [|x l Hx Hl IH]; intros [|k]; cbn;
    constructor; auto.
Qed.

(** X18.  The loop of line 125 runs over the rows of the file and looks
    each one up in the table; it does not count them.  So the check
    passes on the text of the header followed by any initial rows of the
    table, the whole table being one case. *)
Theorem readback_accepts_initial_rows (header : list str)
    (table : list (list str)) (k : nat) :
  Forall (Forall fits) (header :: table) ->
  check_readback header table (writerows (header :: firstn k table))
  = Return tt.
Proof.
  intros Hfit. apply check_readback_iff. exists (firstn k table). split.
  - apply csv_reader_writerows. inversion Hfit as [|? ? Hh Ht]; subst.
    constructor; [exact Hh | now apply Forall_firstn].
  - intros j row. apply firstn_nth_error.
Qed.

Lemma readback_accepts_initial_rows_witness :
  check_readback [("a"%string : str); ("b"%string : str)]
    [[("1"%string : str); ("x,y"%string : str)];
     [("2"%string : str); []]]
    (writerows ([("a"%string : str); ("b"%string : str)]
                :: firstn 1 [[("1"%string : str); ("x,y"%string : str)];
                             [("2"%string : str); []]]))
  = Return tt.
Proof.
  apply (readback_accepts_initial_rows
           [("a"%string : str); ("b"%string : str)]
           [[("1"%string : str); ("x,y"%string : str)];
            [("2"%string : str); []]] 1).
  apply fits_forallb. vm_compute. reflexivity.
Defined.

Lemma readback_failures_witness :
  check_readback [("a"%string : str)] [[("1"%string : str)]]
    (writerows [[("a"%string : str)]; [("1"%string : str)]; [("2"%string : str)]])
  = Raise IndexError.
Proof.
  destruct (readback_failures [("a"%string : str)] [[("1"%string : str)]]
              (writerows [[("a"%string : str)]; [("1"%string : str)];
                          [("2"%string : str)]])) as [_ H].
  destruct (H [("a"%string : str)]
              [[("1"%string : str)]; [("2"%string : str)]] None)
    as (_ & Hrow & _); [vm_compute; reflexivity|].
  apply (Hrow eq_refl 1%nat [("2"%string : str)]).
  - reflexivity.
  - intros [|k] r Hk; [intros [= <-]; reflexivity | lia].
  - discriminate.
Defined.

(** ** Further properties of the main block *)













(** ** The base64 cell in the CSV file *)





(** X23.  The CSV text determines the rows: two different lists of
    rows, all fields within the field size limit, never give the same
    text; a field with a comma in it is not taken for two fields.  So
    apart from the substitution for NULL, which happens before the
    writer, no two tables share a file. *)
Theorem writerows_injective (rows1 rows2 : list (list str)) :
  Forall (Forall fits) rows1 ->
  Forall (Forall fits) rows2 ->
  rows1 <> rows2 ->
  writerows rows1 <> writerows rows2.
Proof.
  intros H1 H2 Hne Heq. apply Hne.
  pose proof (csv_reader_writerows rows1 H1) as R1.
  pose proof (csv_reader_writerows rows2 H2) as R2.
  rewrite Heq in R1. congruence.
Qed.

Lemma writerows_injective_witness :
  writerows [[("a,b"%string : str)]]
  <> writerows [[("a"%string : str); ("b"%string : str)]].
Proof.
  apply (writerows_injective [[("a,b"%string : str)]]
           [[("a"%string : str); ("b"%string : str)]]).
  - apply fits_forallb. vm_compute. reflexivity.
  - apply fits_forallb. vm_compute. reflexivity.
  - discriminate.
Defined.
